(** * VTrack: the vehicle status tracker of [app.py]

    A shallow embedding of [app.py] and of the part of Python's [csv] module
    it drives, followed by the properties of the record store, the lookups,
    the exports and the update handler.

    Modelling choices.
    - A Python [str] is a [string]; one [ascii] stands for one code point
      (the Latin-1 range).
    - The file system is the three paths the program names: [CSV_PATH] holds
      text or is missing, [XLSX_PATH] and [PDF_PATH] hold an artifact or are
      missing.  Every function of [app.py] is a computation in a state and
      exception monad over that world.
    - A row as [csv.DictReader] yields it is a [dict]: string keys bound to a
      string or to Python's [None], plus the list stored under the key
      [None] (the reader's [restkey]) when a line has more cells than the
      header.
    - [csv.reader] and [csv.writer] are modelled for the default dialect
      (delimiter comma, quote character 34, doubled quotes, minimal quoting,
      line terminator CR LF, not strict), the reader as the character state
      machine of CPython's [_csv] module, as of version 3.11, fed by the
      lines of a file opened with an empty [newline] argument.
    - The reader's field size limit is modelled: a field may hold
      [csv.field_limit] characters, the default 131072, and one character
      more raises [csv.Error].
    - [XLSX_PATH] holds the frame handed to [to_excel] and [PDF_PATH] the
      cells handed to [pdf.cell].  The model follows the program up to these
      calls: what the spreadsheet library makes of the frame, and whether it
      accepts it, is outside the model, and no property below depends on the
      spreadsheet export succeeding.
    - Memory, disk space and operating-system failures of [open] are outside
      the model. *)

From Stdlib Require Import Ascii String ZArith Lia.
From stdpp Require Import base option list strings pretty gmap.

Local Open Scope string_scope.
Local Open Scope list_scope.

(** ** Characters and strings *)

Definition COMMA : ascii := ","%char.
Definition QUOTE : ascii := "034"%char.
Definition CR : ascii := "013"%char.
Definition LF : ascii := "010"%char.

(** [str.isspace] on one code point below 256: the characters Python
    strips are 9 to 13, 28 to 32, 133 and 160. *)
Definition isspace (c : ascii) : bool :=
  let n := N_of_ascii c in
  ((9 <=? n) && (n <=? 13) || (28 <=? n) && (n <=? 32) || (n =? 133) || (n =? 160))%N.

Fixpoint lstrip (s : string) : string :=
  match s with
  | EmptyString => EmptyString
  | String c s' => if isspace c then lstrip s' else s
  end.

Fixpoint rstrip (s : string) : string :=
  match s with
  | EmptyString => EmptyString
  | String c s' =>
      match rstrip s' with
      | EmptyString => if isspace c then EmptyString else String c EmptyString
      | t => String c t
      end
  end.

(** [s.strip()] *)
Definition strip (s : string) : string := rstrip (lstrip s).

(** Truth value of a [str]: non-empty. *)
Definition truthy (s : string) : bool := negb (bool_decide (s = "")).

(** [s[:n]] *)
Fixpoint slice_to (n : nat) (s : string) : string :=
  match n, s with
  | S n', String c s' => String c (slice_to n' s')
  | _, _ => EmptyString
  end.

(** ** Exceptions and the world *)

Inductive exn : Type :=
  | FileNotFoundError
  | ValueError
  | TypeError
  | CsvError.

Inductive outcome (A : Type) : Type :=
  | Return (a : A)
  | Raise (e : exn).
Arguments Return {A} a.
Arguments Raise {A} e.

Global Instance exn_eq_dec : EqDecision exn.
Proof. solve_decision. Defined.

Global Instance outcome_eq_dec {A} `{EqDecision A} : EqDecision (outcome A).
Proof. solve_decision. Defined.

Definition outcome_map {A B} (f : A -> B) (o : outcome A) : outcome B :=
  match o with
  | Return a => Return (f a)
  | Raise e => Raise e
  end.

Definition outcome_bind {A B} (o : outcome A) (k : A -> outcome B) : outcome B :=
  match o with
  | Return a => k a
  | Raise e => Raise e
  end.

(** ** Python's csv module, default dialect *)

Module csv.

Definition lineterminator : string := String CR (String LF "").

(** *** Writer *)

(** A field is quoted when it holds the delimiter, the quote character or
    a character of the line terminator. *)
Definition special (c : ascii) : bool :=
  bool_decide (c = COMMA) || bool_decide (c = QUOTE)
  || bool_decide (c = CR) || bool_decide (c = LF).

Fixpoint quoted (field : string) : bool :=
  match field with
  | EmptyString => false
  | String c s => special c || quoted s
  end.

(** The copy of the field data: every quote character is written twice. *)
Fixpoint join_append_data (field : string) : string :=
  match field with
  | EmptyString => EmptyString
  | String c s =>
      if bool_decide (c = QUOTE)
      then String QUOTE (String QUOTE (join_append_data s))
      else String c (join_append_data s)
  end.

(** One field of a record; [None] is written as the empty field. *)
Definition join_append (field : option string) : string :=
  match field with
  | None => EmptyString
  | Some s =>
      if quoted s
      then String QUOTE (join_append_data s +:+ String QUOTE "")
      else join_append_data s
  end.

Fixpoint join (fields : list string) : string :=
  match fields with
  | [] => EmptyString
  | [f] => f
  | f :: fs => f +:+ String COMMA (join fs)
  end.

(** [writer.writerow]: the text written for one row.  A row of one empty
    field is written as a pair of quotes. *)
Definition writerow (row : list (option string)) : string :=
  let rec := join (join_append <$> row) in
  let rec :=
    if bool_decide (row ≠ []) && bool_decide (rec = "")
    then String QUOTE (String QUOTE "") else rec in
  rec +:+ lineterminator.

(** *** Reader *)

Inductive ParserState : Type :=
  | START_RECORD
  | START_FIELD
  | IN_FIELD
  | IN_QUOTED_FIELD
  | QUOTE_IN_QUOTED_FIELD
  | EAT_CRNL.

Global Instance ParserState_eq_dec : EqDecision ParserState.
Proof. solve_decision. Defined.

Record ReaderObj : Type := mkReader {
  state : ParserState;
  fields : list string;
  field : string
}.

Definition parse_reset : ReaderObj := mkReader START_RECORD [] "".

Definition parse_save_field (self : ReaderObj) : ReaderObj :=
  mkReader (state self) (fields self ++ [field self]) "".

(** [field_size_limit], at its default. *)
Definition field_limit : N := 131072.

(** The length of the field in progress, [field_len]. *)
Definition field_len (self : ReaderObj) : N := N.of_nat (String.length (field self)).

(** The character is added to the field in progress, unless the field has
    reached the limit. *)
Definition parse_add_char (self : ReaderObj) (c : ascii) : outcome ReaderObj :=
  if (field_limit <=? field_len self)%N then Raise CsvError
  else Return (mkReader (state self) (fields self) (field self +:+ String c "")).

Definition set_state (self : ReaderObj) (s : ParserState) : ReaderObj :=
  mkReader s (fields self) (field self).

(** [parse_add_char] followed by the move to the state [s]. *)
Definition add_char_then (self : ReaderObj) (c : ascii) (s : ParserState)
  : outcome ReaderObj :=
  outcome_map (fun self' => set_state self' s) (parse_add_char self c).

Definition is_newline (c : ascii) : bool :=
  bool_decide (c = LF) || bool_decide (c = CR).

(** The state after a line break or the end of the line: [c] is [None]
    for the end-of-line mark the reader feeds after each line. *)
Definition after_break (c : option ascii) : ParserState :=
  match c with None => START_RECORD | Some _ => EAT_CRNL end.

Definition line_break (c : option ascii) : bool :=
  match c with None => true | Some c => is_newline c end.

Definition start_field (self : ReaderObj) (c : option ascii) : outcome ReaderObj :=
  match c with
  | None => Return (set_state (parse_save_field self) START_RECORD)
  | Some ch =>
      if is_newline ch then Return (set_state (parse_save_field self) EAT_CRNL)
      else if bool_decide (ch = QUOTE) then Return (set_state self IN_QUOTED_FIELD)
      else if bool_decide (ch = COMMA) then Return (parse_save_field self)
      else add_char_then self ch IN_FIELD
  end.

Definition parse_process_char (self : ReaderObj) (c : option ascii)
  : outcome ReaderObj :=
  match state self with
  | START_RECORD =>
      match c with
      | None => Return self
      | Some ch =>
          if is_newline ch then Return (set_state self EAT_CRNL)
          else start_field (set_state self START_FIELD) c
      end
  | START_FIELD => start_field self c
  | IN_FIELD =>
      if line_break c
      then Return (set_state (parse_save_field self) (after_break c))
      else if bool_decide (c = Some COMMA)
      then Return (set_state (parse_save_field self) START_FIELD)
      else from_option (parse_add_char self) (Return self) c
  | IN_QUOTED_FIELD =>
      match c with
      | None => Return self
      | Some ch =>
          if bool_decide (ch = QUOTE)
          then Return (set_state self QUOTE_IN_QUOTED_FIELD)
          else parse_add_char self ch
      end
  | QUOTE_IN_QUOTED_FIELD =>
      if bool_decide (c = Some QUOTE)
      then add_char_then self QUOTE IN_QUOTED_FIELD
      else if bool_decide (c = Some COMMA)
      then Return (set_state (parse_save_field self) START_FIELD)
      else if line_break c
      then Return (set_state (parse_save_field self) (after_break c))
      else from_option (fun ch => add_char_then self ch IN_FIELD) (Return self) c
  | EAT_CRNL =>
      match c with
      | None => Return (set_state self START_RECORD)
      | Some ch => if is_newline ch then Return self else Raise CsvError
      end
  end.

(** One line of the input: its characters, then the end-of-line mark. *)
Fixpoint feed_line (self : ReaderObj) (line : string) : outcome ReaderObj :=
  match line with
  | EmptyString => parse_process_char self None
  | String c l =>
      match parse_process_char self (Some c) with
      | Return self' => feed_line self' l
      | Raise e => Raise e
      end
  end.

(** [list(csv.reader(lines))]: [Reader_iternext] repeated until the lines
    are used up.  A record ends when a line leaves the parser in
    [START_RECORD]; at the end of the input a record in progress is kept
    when its field is non-empty or it stands inside quotes. *)
Fixpoint reader (self : ReaderObj) (lines : list string)
  : outcome (list (list string)) :=
  match lines with
  | [] =>
      if truthy (field self) || bool_decide (state self = IN_QUOTED_FIELD)
      then Return [fields (parse_save_field self)]
      else Return []
  | line :: lines' =>
      match feed_line self line with
      | Raise e => Raise e
      | Return self' =>
          if bool_decide (state self' = START_RECORD)
          then outcome_map (cons (fields self')) (reader parse_reset lines')
          else reader self' lines'
      end
  end.

End csv.

(** The lines a text file yields when opened with an empty [newline]
    argument: a line ends after LF, after CR LF, or after a CR that no LF
    follows, and keeps its ending. *)
Fixpoint readlines (text : string) : list string :=
  match text with
  | EmptyString => []
  | String c s =>
      if bool_decide (c = LF) then String c "" :: readlines s
      else if bool_decide (c = CR) then
        match s with
        | String c' s' =>
            if bool_decide (c' = LF)
            then String c (String c' "") :: readlines s'
            else String c "" :: readlines s
        | EmptyString => [String c ""]
        end
      else
        match readlines s with
        | [] => [String c ""]
        | l :: ls => String c l :: ls
        end
  end.

(** ** Rows as dictionaries *)

(** A row dictionary.  [named] binds string keys to a [str] ([Some s]) or to
    Python's [None]; [extra] is the list bound to the key [None], when that
    key is present. *)
Record dict : Type := Dict {
  named : gmap string (option string);
  extra : option (list string)
}.

Global Instance dict_eq_dec : EqDecision dict.
Proof. solve_decision. Defined.

(** [d.get(key)]: [None] for a missing key and for a key bound to [None]. *)
Definition get (d : dict) (key : string) : option string :=
  default None (named d !! key).

(** [d.get(key, dflt)]: the default only replaces a missing key. *)
Definition get_default (d : dict) (key : string) (dflt : option string)
  : option string :=
  default dflt (named d !! key).

(** [dict(zip(keys, values))]: bindings are made left to right, so a
    repeated key keeps its last value. *)
Definition dict_zip (keys values : list string) : gmap string (option string) :=
  foldl (fun m kv => <[kv.1 := Some kv.2]> m) ∅ (zip keys values).

(** [x == s] for [x] a [str] or [None] and [s] a [str]. *)
Definition eq_str (x : option string) (s : string) : bool :=
  bool_decide (x = Some s).

(** [x or y] for [x] a [str] or [None]. *)
Definition or_else {A} (x : option string) (inj : string -> A) (y : A) : A :=
  match x with
  | Some s => if truthy s then inj s else y
  | None => y
  end.

Module DictReader.

(** The dictionary [__next__] builds from the header and one row. *)
Definition row_dict (fieldnames row : list string) : dict :=
  let d := dict_zip fieldnames row in
  let lf := length fieldnames in
  let lr := length row in
  if (lf <? lr)%nat then Dict d (Some (drop lf row))
  else if (lr <? lf)%nat
  then Dict (foldl (fun m key => <[key := None]> m) d (drop lr fieldnames)) None
  else Dict d None.

Definition nonblank (row : list string) : bool :=
  match row with [] => false | _ => true end.

(** [list(csv.DictReader(f))] from the rows of [csv.reader]: the first
    row is the header, blank rows after it are skipped. *)
Definition rows (rs : list (list string)) : list dict :=
  match rs with
  | [] => []
  | fieldnames :: rs' => row_dict fieldnames <$> filter (fun r => nonblank r) rs'
  end.

(** [list(csv.DictReader(f))] for a file holding [text]. *)
Definition read (text : string) : outcome (list dict) :=
  outcome_map rows (csv.reader csv.parse_reset (readlines text)).

End DictReader.

Module DictWriter.

(** [rowdict.keys() - fieldnames] is empty. *)
Definition no_wrong_fields (fieldnames : list string) (rowdict : dict) : bool :=
  bool_decide (extra rowdict = None)
  && bool_decide (map_Forall (fun key _ => key ∈ fieldnames) (named rowdict)).

(** [_dict_to_list] with the defaults [extrasaction = raise] and an empty
    [restval]. *)
Definition _dict_to_list (fieldnames : list string) (rowdict : dict)
  : outcome (list (option string)) :=
  if no_wrong_fields fieldnames rowdict
  then Return ((fun key => get_default rowdict key (Some "")) <$> fieldnames)
  else Raise ValueError.

(** The text [writerow] sends to the file. *)
Definition row_text (fieldnames : list string) (rowdict : dict) : outcome string :=
  outcome_map csv.writerow (_dict_to_list fieldnames rowdict).

(** The text of [writeheader]. *)
Definition header_text (fieldnames : list string) : outcome string :=
  row_text fieldnames (Dict (dict_zip fieldnames fieldnames) None).

End DictWriter.

(** ** The world and its monad *)

(** A cell of the spreadsheet: text, or empty for a missing value. *)
Definition sheet : Type := list (list (option string)).

(** A cell of the document: width, height, text, filled or not. *)
Record pdf_cell : Type := Cell {
  cell_width : Z;
  cell_height : Z;
  cell_text : string;
  cell_fill : bool
}.
Definition document : Type := list (list pdf_cell).

Record world : Type := World {
  csv_file : option string;
  xlsx_file : option sheet;
  pdf_file : option document
}.

Definition set_csv (w : world) (f : option string) : world :=
  World f (xlsx_file w) (pdf_file w).

Definition M (A : Type) : Type := world -> outcome A * world.

Global Instance M_ret : MRet M := fun A a w => (Return a, w).
Global Instance M_bind : MBind M := fun A B k m w =>
  match m w with
  | (Return a, w') => k a w'
  | (Raise e, w') => (Raise e, w')
  end.

Definition lift {A} (o : outcome A) : M A := fun w => (o, w).

(** [CSV_PATH.exists()] *)
Definition CSV_PATH_exists : M bool := fun w =>
  (Return (bool_decide (is_Some (csv_file w))), w).

(** [CSV_PATH.open mode r]: the text of the file. *)
Definition CSV_PATH_open_r : M string := fun w =>
  match csv_file w with
  | Some text => (Return text, w)
  | None => (Raise FileNotFoundError, w)
  end.

(** [CSV_PATH.open mode w]: the file is created or emptied. *)
Definition CSV_PATH_open_w : M unit := fun w => (Return tt, set_csv w (Some "")).

(** [CSV_PATH.open mode a]: the file is created when missing. *)
Definition CSV_PATH_open_a : M unit := fun w =>
  (Return tt, set_csv w (Some (default "" (csv_file w)))).

(** A write to the open file: the text goes to its end. *)
Definition CSV_PATH_write (text : string) : M unit := fun w =>
  (Return tt, set_csv w (Some (default "" (csv_file w) +:+ text))).

(** [df.to_excel(XLSX_PATH)] and [pdf.output(PDF_PATH)]: the path holds
    what was handed to the library. *)
Definition XLSX_PATH_write (df : sheet) : M unit := fun w =>
  (Return tt, World (csv_file w) (Some df) (pdf_file w)).

Definition PDF_PATH_write (pdf : document) : M unit := fun w =>
  (Return tt, World (csv_file w) (xlsx_file w) (Some pdf)).

Definition writeheader (fieldnames : list string) : M unit :=
  text ← lift (DictWriter.header_text fieldnames); CSV_PATH_write text.

Definition writerow (fieldnames : list string) (rowdict : dict) : M unit :=
  text ← lift (DictWriter.row_text fieldnames rowdict); CSV_PATH_write text.

(** [writerows]: row after row; a row that raises leaves the rows before it
    written. *)
Fixpoint writerows (fieldnames : list string) (rowdicts : list dict) : M unit :=
  match rowdicts with
  | [] => mret tt
  | d :: ds => writerow fieldnames d ;; writerows fieldnames ds
  end.

(** ** app.py *)

Definition CSV_PATH : string := "data/vehicle_status.csv".
Definition XLSX_PATH : string := "data/vehicle_status.xlsx".
Definition PDF_PATH : string := "data/vehicle_status.pdf".

Definition FIELDNAMES : list string :=
  ["timestamp"; "handled_by"; "stock_id"; "vin"; "current_location";
   "previous_location"].

Inductive ctx_value : Type :=
  | CNone
  | CStr (s : string)
  | CDict (d : dict).

Inductive response : Type :=
  | TemplateResponse (name : string) (context : list (string * ctx_value))
  | RedirectResponse (url : string) (status_code : Z)
  | FileResponse (path : string) (filename : string).

Definition _init_csv : M unit :=
  ex ← CSV_PATH_exists;
  if negb ex then CSV_PATH_open_w ;; writeheader FIELDNAMES
  else mret tt.

Definition _find_previous_location (vin stock_id : string) : M (option string) :=
  ex ← CSV_PATH_exists;
  if negb ex then mret None
  else
    f ← CSV_PATH_open_r;
    reader ← lift (DictReader.read f);
    mret (foldl (fun previous row =>
                   if eq_str (get row "vin") vin || eq_str (get row "stock_id") stock_id
                   then or_else (get row "current_location") Some previous
                   else previous)
                None reader).

Definition _load_records : M (list dict) :=
  _init_csv ;;
  f ← CSV_PATH_open_r;
  lift (DictReader.read f).

Definition _find_latest_record_by_vin (vin : string) : M (option dict) :=
  rows ← _load_records;
  mret (foldl (fun latest row =>
                 if eq_str (get row "vin") vin then Some row else latest)
              None rows).

Definition _delete_records_by_vin (vin : string) : M nat :=
  _init_csv ;;
  ex ← CSV_PATH_exists;
  if negb ex then mret 0%nat
  else
    f ← CSV_PATH_open_r;
    rows ← lift (DictReader.read f);
    let '(removed, remaining) :=
      foldl (fun '(removed, remaining) row =>
               if eq_str (get row "vin") vin then (S removed, remaining)
               else (removed, remaining ++ [row]))
            (0%nat, []) rows in
    CSV_PATH_open_w ;;
    writeheader FIELDNAMES ;;
    writerows FIELDNAMES remaining ;;
    mret removed.

(** [pd.DataFrame(rows, columns=FIELDNAMES)] written by [to_excel] without
    the index: a header row, then per row the cell of each column, empty
    for a missing key or a [None]. *)
Definition DataFrame (rows : list dict) (columns : list string) : sheet :=
  (Some <$> columns) :: ((fun row => get row <$> columns) <$> rows).

Definition _build_excel : M unit :=
  rows ← _load_records;
  XLSX_PATH_write (DataFrame rows FIELDNAMES).

Definition col_widths : list Z := [40; 30; 25; 40; 55; 55]%Z.
Definition headers : list string :=
  ["Timestamp"; "Handled By"; "Stock ID"; "VIN"; "Current Location";
   "Previous Location"].

(** One grid line of the document; slicing a [None] raises. *)
Fixpoint pdf_cells (values : list (option string * Z)) : outcome (list pdf_cell) :=
  match values with
  | [] => Return []
  | (None, _) :: _ => Raise TypeError
  | (Some value, width) :: vs =>
      outcome_map (cons (Cell width 7 (slice_to 50 value) false)) (pdf_cells vs)
  end.

Fixpoint pdf_lines (rows : list dict) : outcome document :=
  match rows with
  | [] => Return []
  | row :: rows' =>
      let values := (fun key => get_default row key (Some "")) <$> FIELDNAMES in
      outcome_bind (pdf_cells (zip values col_widths)) (fun line =>
      outcome_map (cons line) (pdf_lines rows'))
  end.

Definition _build_pdf : M unit :=
  rows ← _load_records;
  let head := (fun hw => Cell hw.2 8 hw.1 true) <$> zip headers col_widths in
  body ← lift (pdf_lines rows);
  PDF_PATH_write (head :: body).

Definition index : M response :=
  _init_csv ;;
  mret (TemplateResponse "index.html" []).

Definition search (vin : string) : M response :=
  let vin := strip vin in
  if negb (truthy vin)
  then mret (TemplateResponse "search.html"
               [("search_error", CNone); ("result", CNone); ("searched_vin", CNone)])
  else
    result ← _find_latest_record_by_vin vin;
    mret (TemplateResponse "search.html"
            [("search_error",
              match result with
              | Some _ => CNone
              | None => CStr "No records found for that VIN."
              end);
             ("result", from_option CDict CNone result);
             ("searched_vin", CStr vin)]).

(** [error] and [success] are the query parameters of the request. *)
Definition update_form (error success : option string) : M response :=
  _init_csv ;;
  mret (TemplateResponse "update.html"
          [("error", from_option CStr CNone error);
           ("success", from_option CStr CNone success)]).

(** The dictionary [submit] writes. *)
Definition update_row
  (timestamp handled_by stock_id vin current_location previous_location : string)
  : dict :=
  Dict (<["previous_location" := Some previous_location]>
       (<["current_location" := Some current_location]>
       (<["vin" := Some vin]>
       (<["stock_id" := Some stock_id]>
       (<["handled_by" := Some handled_by]>
       (<["timestamp" := Some timestamp]> ∅)))))) None.

(** [now] is the reading of the server clock,
    [datetime.now().isoformat(timespec=seconds)]. *)
Definition submit (now handled_by vin stock_id current_location : string)
  : M response :=
  let handled_by := strip handled_by in
  let vin := strip vin in
  let stock_id := strip stock_id in
  let current_location := strip current_location in
  if negb (truthy handled_by && truthy vin && truthy stock_id
           && truthy current_location)
  then mret (RedirectResponse "/update?error=All%20fields%20are%20required." 303)
  else
    previous_location ← _find_previous_location vin stock_id;
    CSV_PATH_open_a ;;
    writerow FIELDNAMES
      (update_row now handled_by stock_id vin current_location
         (or_else previous_location id "")) ;;
    mret (RedirectResponse "/update?success=Saved%20update." 303).

Definition download_csv : M response :=
  _init_csv ;;
  mret (FileResponse CSV_PATH "vehicle_status.csv").

Definition download_excel : M response :=
  _build_excel ;;
  mret (FileResponse XLSX_PATH "vehicle_status.xlsx").

Definition download_pdf : M response :=
  _build_pdf ;;
  mret (FileResponse PDF_PATH "vehicle_status.pdf").

Definition delete_form (error delete_message : option string) : M response :=
  mret (TemplateResponse "delete.html"
          [("error", from_option CStr CNone error);
           ("delete_message", from_option CStr CNone delete_message)]).

Definition delete_vehicle (vin : string) : M response :=
  let vin := strip vin in
  if negb (truthy vin)
  then mret (RedirectResponse "/delete?error=VIN%20is%20required%20to%20delete." 303)
  else
    removed ← _delete_records_by_vin vin;
    if bool_decide (removed = 0%nat)
    then mret (RedirectResponse "/delete?error=No%20records%20found%20for%20that%20VIN." 303)
    else mret (RedirectResponse
                 ("/delete?delete=Deleted%20" +:+ pretty removed +:+ "%20record(s).") 303).

(** The world before the first request: no file yet. *)
Definition fresh : world := World None None None.

(** ** Definitions for the properties *)

(** The lines still to be read when the file iterator stands before [text];
    with [mid] set, a line is in progress and the first of these lines
    continues it. *)
Definition rest_lines (mid : bool) (text : string) : list string :=
  match readlines text with
  | [] => if mid then [""] else []
  | ls => ls
  end.

Definition then_read (o : outcome csv.ReaderObj) (lines : list string)
  : outcome (list (list string)) :=
  match o with
  | Return p' => csv.reader p' lines
  | Raise e => Raise e
  end.

(** The parser has read the field [f] after the fields [fs] and stands
    before the delimiter or the line terminator. *)
Definition field_done (fs : list string) (f : string) (q : csv.ReaderObj) : Prop :=
  csv.fields q = fs
  /\ ((csv.state q = csv.IN_FIELD \/ csv.state q = csv.QUOTE_IN_QUOTED_FIELD)
      /\ csv.field q = f
      \/ (csv.state q = csv.START_FIELD \/ csv.state q = csv.START_RECORD)
         /\ f = "" /\ csv.field q = "").

(** The field is within the reader's field size limit. *)
Definition fits (f : string) : Prop :=
  (N.of_nat (String.length f) <= csv.field_limit)%N.

Global Instance fits_dec (f : string) : Decision (fits f).
Proof. unfold fits. apply _. Defined.

(** The fields the parser holds are within the limit. *)
Definition within (p : csv.ReaderObj) : Prop :=
  Forall fits (csv.fields p) /\ fits (csv.field p).

(** What the reader returns for a row that [csv.writer] wrote, the rest of
    the input giving [rest]: the row when its fields are within the limit. *)
Definition read_back {A} (row : list string) (rest : outcome A) : outcome A :=
  if decide (Forall fits row) then rest else Raise CsvError.

(** *** The record store as the specification describes it *)

(** An update record: six strings. *)
Record update_record : Type := UpdateRecord {
  r_timestamp : string;
  r_handled_by : string;
  r_stock_id : string;
  r_vin : string;
  r_current_location : string;
  r_previous_location : string
}.

Definition cells (r : update_record) : list string :=
  [r_timestamp r; r_handled_by r; r_stock_id r; r_vin r; r_current_location r;
   r_previous_location r].

(** The row dictionary of a record. *)
Definition to_dict (r : update_record) : dict :=
  update_row (r_timestamp r) (r_handled_by r) (r_stock_id r) (r_vin r)
    (r_current_location r) (r_previous_location r).

(** Every field of the record is within the reader's limit. *)
Definition bounded (r : update_record) : Prop := Forall fits (cells r).

Global Instance bounded_dec (r : update_record) : Decision (bounded r).
Proof. unfold bounded. apply _. Defined.

Definition header_line : string := csv.writerow (Some <$> FIELDNAMES).

Definition record_line (r : update_record) : string :=
  csv.writerow (Some <$> cells r).

Fixpoint record_lines (rs : list update_record) : string :=
  match rs with
  | [] => ""
  | r :: rs' => record_line r +:+ record_lines rs'
  end.

(** The persisted file of a store that holds [rs]: the header row, then one
    row per record in insertion order. *)
Definition store_text (rs : list update_record) : string :=
  header_line +:+ record_lines rs.

(** The world in which the store holds [rs]. *)
Definition stored (rs : list update_record) (w : world) : world :=
  set_csv w (Some (store_text rs)).

(** The append operation of the store: the open in append mode and the
    [writerow] of [submit]. *)
Definition append (r : update_record) : M unit :=
  CSV_PATH_open_a ;; writerow FIELDNAMES (to_dict r).

Fixpoint append_all (rs : list update_record) : M unit :=
  match rs with
  | [] => mret tt
  | r :: rs' => append r ;; append_all rs'
  end.

(** The text of the store file once [_init_csv] has run. *)
Definition init_text (w : world) : string := default header_line (csv_file w).

(** The bodies of the two lookup loops. *)
Definition previous_step (vin stock_id : string) (previous : option string) (row : dict)
  : option string :=
  if eq_str (get row "vin") vin || eq_str (get row "stock_id") stock_id
  then or_else (get row "current_location") Some previous
  else previous.

Definition latest_step (vin : string) (latest : option dict) (row : dict) : option dict :=
  if eq_str (get row "vin") vin then Some row else latest.

(** *** The lookups as the specification words them *)

(** The record matches the given vin or the given stock id. *)
Definition matches_either (vin stock_id : string) (row : dict) : Prop :=
  get row "vin" = Some vin \/ get row "stock_id" = Some stock_id.

Global Instance matches_either_dec vin stock_id row :
  Decision (matches_either vin stock_id row).
Proof. unfold matches_either. apply _. Defined.

(** The record has a non-empty current location. *)
Definition has_location (row : dict) : bool :=
  match get row "current_location" with
  | Some s => truthy s
  | None => false
  end.

(** The last record in insertion order with the given vin. *)
Definition latest_by_vin (vin : string) (rows : list dict) : option dict :=
  last (filter (fun row => get row "vin" = Some vin) rows).

(** The current location of the last record in insertion order that
    matches on either key. *)
Definition last_matching_location (vin stock_id : string) (rows : list dict)
  : option string :=
  last (filter (matches_either vin stock_id) rows)
    ≫= (fun row => get row "current_location").

(** The current location of the last record in insertion order that
    matches on either key and has a non-empty current location. *)
Definition last_known_location (vin stock_id : string) (rows : list dict)
  : option string :=
  last (filter (fun row => matches_either vin stock_id row /\ has_location row = true) rows)
    ≫= (fun row => get row "current_location").

(** A store whose last record for the vin has an empty current location. *)
Definition moved_store : list update_record :=
  [UpdateRecord "2024-01-01T08:00:00" "Ann" "S1" "A" "Lot 1" "";
   UpdateRecord "2024-01-02T08:00:00" "Bob" "S1" "A" "" "Lot 1"].

(** The body of the loop of [_delete_records_by_vin]. *)
Definition delete_step (vin : string) : nat * list dict -> dict -> nat * list dict :=
  fun '(removed, remaining) row =>
    if eq_str (get row "vin") vin then (S removed, remaining)
    else (removed, remaining ++ [row]).

(** The operations of the record store. *)
Inductive store_op : Type :=
  | EnsureInitialized
  | Append (r : update_record)
  | DeleteByVin (vin : string).

Definition run_op (op : store_op) : M unit :=
  match op with
  | EnsureInitialized => _init_csv
  | Append r => append r
  | DeleteByVin vin => _delete_records_by_vin vin ;; mret tt
  end.

Fixpoint run_ops (ops : list store_op) : M unit :=
  match ops with
  | [] => mret tt
  | op :: ops' => run_op op ;; run_ops ops'
  end.

(** The persisted file begins with the header row and holds only data rows
    after it. *)
Definition well_formed (w : world) : Prop :=
  exists rs, csv_file w = Some (store_text rs).

(** The responses of [submit]. *)
Definition update_error : response :=
  RedirectResponse "/update?error=All%20fields%20are%20required." 303.
Definition update_success : response :=
  RedirectResponse "/update?success=Saved%20update." 303.

(** A file the store did not write: semicolons between the cells, bare LF
    line ends. *)
Definition corrupt_text : string :=
  "vin;location" +:+ String LF ("A;Lot 1" +:+ String LF "").

Definition corrupt_world : world := World (Some corrupt_text) None None.

(** A file with a line of seven cells under the header. *)
Definition long_row_text : string :=
  header_line +:+ "t,Ann,S1,A,Lot 1,,extra" +:+ csv.lineterminator.

(** ** Requests and forms *)

(** The fields of one POST to [/update], with the reading of the clock. *)
Record update_post : Type := UpdatePost {
  f_now : string;
  f_handled_by : string;
  f_vin : string;
  f_stock_id : string;
  f_current_location : string
}.

(** No field is blank after trimming. *)
Definition complete (f : update_post) : Prop :=
  strip (f_handled_by f) <> "" /\ strip (f_vin f) <> ""
  /\ strip (f_stock_id f) <> "" /\ strip (f_current_location f) <> "".

(** The clock reading and the trimmed fields of the post are within the
    reader's field size limit. *)
Definition post_fits (f : update_post) : Prop :=
  fits (f_now f) /\ fits (strip (f_handled_by f)) /\ fits (strip (f_stock_id f))
  /\ fits (strip (f_vin f)) /\ fits (strip (f_current_location f)).

Global Instance post_fits_dec (f : update_post) : Decision (post_fits f).
Proof. unfold post_fits. apply _. Defined.

Definition submit_post (f : update_post) : M response :=
  submit (f_now f) (f_handled_by f) (f_vin f) (f_stock_id f) (f_current_location f).

Fixpoint submit_all (fs : list update_post) : M unit :=
  match fs with
  | [] => mret tt
  | f :: fs' => submit_post f ;; submit_all fs'
  end.

(** The record [submit] writes for the post [f] on a store that holds [rs]. *)
Definition record_of (rs : list update_record) (f : update_post) : update_record :=
  UpdateRecord (f_now f) (strip (f_handled_by f)) (strip (f_stock_id f))
    (strip (f_vin f)) (strip (f_current_location f))
    (default "" (last_known_location (strip (f_vin f)) (strip (f_stock_id f))
                   (to_dict <$> rs))).

(** The store after the posts [fs], one after the other. *)
Fixpoint submitted (rs : list update_record) (fs : list update_post)
  : list update_record :=
  match fs with
  | [] => rs
  | f :: fs' => submitted (rs ++ [record_of rs f]) fs'
  end.

(** The record holds the trimmed fields of the post and its clock reading. *)
Definition written_from (f : update_post) (r : update_record) : Prop :=
  r_timestamp r = f_now f
  /\ r_handled_by r = strip (f_handled_by f)
  /\ r_stock_id r = strip (f_stock_id f)
  /\ r_vin r = strip (f_vin f)
  /\ r_current_location r = strip (f_current_location f).

(** Two posts whose fields hold a comma, quotes and a line break. *)
Definition sample_posts : list update_post :=
  [UpdatePost "2024-01-01T08:00:00" " Ann " "A" "S1" "Lot 1, row 2";
   UpdatePost "2024-01-02T08:00:00" "Bob" " A" "S2"
     ("Bay " +:+ String QUOTE ("2" +:+ String QUOTE (String LF "north")))].

(** The page [search] renders for the trimmed vin and the record found. *)
Definition search_page (vin : string) (result : option dict) : response :=
  TemplateResponse "search.html"
    [("search_error",
      match result with
      | Some _ => CNone
      | None => CStr "No records found for that VIN."
      end);
     ("result", from_option CDict CNone result);
     ("searched_vin", CStr vin)].

(** The page [search] renders for a blank vin. *)
Definition search_blank : response :=
  TemplateResponse "search.html"
    [("search_error", CNone); ("result", CNone); ("searched_vin", CNone)].

(** The requests the application serves. *)
Inductive request : Type :=
  | GET_index
  | GET_search (vin : string)
  | GET_update (error success : option string)
  | POST_update (f : update_post)
  | GET_download_csv
  | GET_download_excel
  | GET_download_pdf
  | GET_delete (error delete_message : option string)
  | POST_delete (vin : string).

Definition handle (req : request) : M response :=
  match req with
  | GET_index => index
  | GET_search vin => search vin
  | GET_update error success => update_form error success
  | POST_update f => submit_post f
  | GET_download_csv => download_csv
  | GET_download_excel => download_excel
  | GET_download_pdf => download_pdf
  | GET_delete error delete_message => delete_form error delete_message
  | POST_delete vin => delete_vehicle vin
  end.

Definition is_get (req : request) : bool :=
  match req with
  | POST_update _ | POST_delete _ => false
  | _ => true
  end.

(** The world after a sequence of requests; a request that raises is
    answered by an error and the next one is served in the world it left. *)
Definition serve (reqs : list request) (w : world) : world :=
  foldl (fun w req => (handle req w).2) w reqs.

(** The responses of [delete_vehicle]. *)
Definition delete_required : response :=
  RedirectResponse "/delete?error=VIN%20is%20required%20to%20delete." 303.
Definition delete_none : response :=
  RedirectResponse "/delete?error=No%20records%20found%20for%20that%20VIN." 303.
Definition delete_done (removed : nat) : response :=
  RedirectResponse ("/delete?delete=Deleted%20" +:+ pretty removed +:+ "%20record(s).") 303.

(** The row can be written under the six column names: it has no other
    key. *)
Definition writable (row : dict) : Prop :=
  DictWriter.no_wrong_fields FIELDNAMES row = true.

(** The text [writerows] writes for rows that can be written; a column the
    row lacks or binds to [None] is written empty. *)
Fixpoint written_rows (rows : list dict) : string :=
  match rows with
  | [] => ""
  | row :: rows' =>
      csv.writerow ((fun key => get_default row key (Some "")) <$> FIELDNAMES)
      +:+ written_rows rows'
  end.

(** The first line of the document and the line of a record. *)
Definition pdf_head : list pdf_cell :=
  (fun hw => Cell hw.2 8 hw.1 true) <$> zip headers col_widths.

Definition pdf_line (r : update_record) : list pdf_cell :=
  (fun vw => Cell vw.2 7 (slice_to 50 vw.1) false) <$> zip (cells r) col_widths.

(** The row binds one of the six columns to [None]. *)
Definition unbound (row : dict) : Prop :=
  Exists (fun key => named row !! key = Some None) FIELDNAMES.

Global Instance unbound_dec row : Decision (unbound row).
Proof. unfold unbound. apply _. Defined.

(** A file with a line of four cells under the header. *)
Definition short_row_text : string :=
  header_line +:+ "t,Ann,S1,A" +:+ csv.lineterminator.

(** The record is one [submit] writes: handler, stock id, vin and current
    location are non-empty, and they and the previous location are left
    unchanged by [strip]. *)
Definition clean (r : update_record) : Prop :=
  (r_handled_by r <> "" /\ strip (r_handled_by r) = r_handled_by r)
  /\ (r_stock_id r <> "" /\ strip (r_stock_id r) = r_stock_id r)
  /\ (r_vin r <> "" /\ strip (r_vin r) = r_vin r)
  /\ (r_current_location r <> "" /\ strip (r_current_location r) = r_current_location r)
  /\ strip (r_previous_location r) = r_previous_location r.

(** No character of the string is one that [strip] removes. *)
Fixpoint no_space (s : string) : bool :=
  match s with
  | EmptyString => true
  | String c s' => negb (isspace c) && no_space s'
  end.

(** A text of [n] characters. *)
Fixpoint pad (n : nat) : string :=
  match n with
  | O => EmptyString
  | S n' => String "x" (pad n')
  end.

(** A location one character longer than the reader's field size limit. *)
Definition long_location : string := pad (N.to_nat (csv.field_limit + 1)).

(** A post with that location. *)
Definition long_post : update_post :=
  UpdatePost "2024-01-03T08:00:00" "Ann" "A" "S1" long_location.

(** ** The csv model on examples *)

Example readlines_ex :
  readlines ("a,b" +:+ String CR (String LF ("c" +:+ String CR ("d" +:+ String LF "e"))))
  = ["a,b" +:+ String CR (String LF ""); "c" +:+ String CR ""; "d" +:+ String LF ""; "e"].
Proof. reflexivity. Qed.

Example writerow_ex :
  csv.writerow [Some "a,b"; None; Some ("x" +:+ String QUOTE "y"); Some ""]
  = String QUOTE ("a,b" +:+ String QUOTE (",," +:+ String QUOTE ("x" +:+
      String QUOTE (String QUOTE ("y" +:+ String QUOTE ("," +:+ csv.lineterminator)))))).
Proof. reflexivity. Qed.

Example reader_ex :
  csv.reader csv.parse_reset
    (readlines (csv.writerow [Some "a,b"; None; Some ("x" +:+ String QUOTE "y"); Some ""]
                +:+ csv.writerow [Some ""] +:+ csv.writerow []
                +:+ csv.writerow [Some (String CR (String LF "z")); Some "q"]))
  = Return [["a,b"; ""; "x" +:+ String QUOTE "y"; ""]; [""]; []; [String CR (String LF "z"); "q"]].
Proof. reflexivity. Qed.

(** Three updates after a visit of the landing page, then a deletion. *)
Example session_ex :
  (index ;;
   submit "2024-01-01T00:00:00" " Ann " "A" "S1" "Lot, 1" ;;
   submit "2024-01-01T00:00:01" "Bob" "A" "S2" "Bay 2" ;;
   submit "2024-01-01T00:00:02" "Bob" "B" "S1" "Yard" ;;
   delete_vehicle "A") fresh
  = (Return (RedirectResponse "/delete?delete=Deleted%202%20record(s)." 303),
     World (Some ("timestamp,handled_by,stock_id,vin,current_location,previous_location"
                  +:+ csv.lineterminator
                  +:+ "2024-01-01T00:00:02,Bob,S1,B,Yard," +:+ String QUOTE "Lot, 1"
                  +:+ String QUOTE csv.lineterminator))
       None None).
Proof. vm_compute. reflexivity. Qed.

(** * Properties *)

(** ** Strings *)

Lemma sapp_nil_l (s : string) : "" +:+ s = s.
Proof. reflexivity. Qed.

Lemma sapp_cons (c : ascii) (s t : string) : String c s +:+ t = String c (s +:+ t).
Proof. reflexivity. Qed.

Lemma sapp_nil_r (s : string) : s +:+ "" = s.
Proof. induction s as [|c s IH]; [done|]. by rewrite sapp_cons, IH. Qed.

Lemma sapp_assoc (s t u : string) : (s +:+ t) +:+ u = s +:+ (t +:+ u).
Proof. induction s as [|c s IH]; [done|]. by rewrite !sapp_cons, IH. Qed.

Lemma slength_app (s t : string) :
  String.length (s +:+ t) = (String.length s + String.length t)%nat.
Proof. induction s as [|c s IH]; [done|]. rewrite sapp_cons. simpl. by rewrite IH. Qed.

Lemma truthy_cons (c : ascii) (s : string) : truthy (String c s) = true.
Proof. reflexivity. Qed.

Lemma truthy_false (s : string) : truthy s = false <-> s = "".
Proof. unfold truthy. case_bool_decide; naive_solver. Qed.

Lemma truthy_true (s : string) : truthy s = true <-> s <> "".
Proof. unfold truthy. case_bool_decide; naive_solver. Qed.

(** ** The field size limit *)

Lemma fits_nil : fits "".
Proof. unfold fits, csv.field_limit. simpl. lia. Qed.

Lemma fits_app_l (s t : string) : fits (s +:+ t) -> fits s.
Proof. unfold fits. rewrite slength_app. lia. Qed.

Lemma fits_FIELDNAMES : Forall fits FIELDNAMES.
Proof. repeat constructor; unfold fits, csv.field_limit; simpl; lia. Qed.

(** A character is added while the field stays within the limit; the
    character that would take it over the limit raises [csv.Error]. *)
Lemma parse_add_char_eq (st : csv.ParserState) (fs : list string) (g : string) (c : ascii) :
  csv.parse_add_char (csv.mkReader st fs g) c
  = if decide (fits (g +:+ String c ""))
    then Return (csv.mkReader st fs (g +:+ String c ""))
    else Raise CsvError.
Proof.
  unfold csv.parse_add_char, csv.field_len. simpl.
  destruct (N.leb_spec csv.field_limit (N.of_nat (String.length g))) as [H|H];
    case_decide as Hfit; try done; exfalso;
    unfold fits in Hfit; rewrite slength_app in Hfit; simpl in Hfit; lia.
Qed.

Lemma add_char_then_eq (st s : csv.ParserState) (fs : list string) (g : string) (c : ascii) :
  csv.add_char_then (csv.mkReader st fs g) c s
  = if decide (fits (g +:+ String c ""))
    then Return (csv.mkReader s fs (g +:+ String c ""))
    else Raise CsvError.
Proof. unfold csv.add_char_then. rewrite parse_add_char_eq. by case_decide. Qed.

(** The reader raises no error but [csv.Error]. *)
Lemma process_char_raises (p : csv.ReaderObj) (c : option ascii) (e : exn) :
  csv.parse_process_char p c = Raise e -> e = CsvError.
Proof.
  destruct p as [st fs g]. unfold csv.parse_process_char, csv.start_field. simpl csv.state.
  destruct st, c as [ch|]; unfold csv.set_state, csv.parse_save_field; simpl;
    rewrite ?add_char_then_eq, ?parse_add_char_eq;
    repeat (case_bool_decide || case_match || case_decide); congruence.
Qed.

Lemma feed_line_raises (line : string) (p : csv.ReaderObj) (e : exn) :
  csv.feed_line p line = Raise e -> e = CsvError.
Proof.
  revert p. induction line as [|c l IH]; intros p; simpl.
  - apply process_char_raises.
  - destruct (csv.parse_process_char p (Some c)) as [p'|e'] eqn:Hp.
    + apply IH.
    + intros [= <-]. by apply process_char_raises in Hp.
Qed.

Lemma reader_raises (lines : list string) (p : csv.ReaderObj) (e : exn) :
  csv.reader p lines = Raise e -> e = CsvError.
Proof.
  revert p. induction lines as [|l ls IH]; intros p; simpl.
  - by case_match.
  - destruct (csv.feed_line p l) as [p'|e'] eqn:Hp.
    + case_bool_decide; [|apply IH].
      destruct (csv.reader csv.parse_reset ls) eqn:Hr; [done|].
      simpl. intros [= <-]. by apply IH in Hr.
    + intros [= <-]. by apply feed_line_raises in Hp.
Qed.

Lemma DictReader_read_raises (text : string) (e : exn) :
  DictReader.read text = Raise e -> e = CsvError.
Proof.
  unfold DictReader.read.
  destruct (csv.reader _ _) as [rows|e'] eqn:Hr; [done|].
  simpl. intros [= <-]. by apply reader_raises in Hr.
Qed.

(** ** Every field the reader returns is within the limit *)

Lemma process_char_within (p p' : csv.ReaderObj) (c : option ascii) :
  within p -> csv.parse_process_char p c = Return p' -> within p'.
Proof.
  destruct p as [st fs g]. intros [Hfs Hg]. simpl in Hfs, Hg.
  assert (Forall fits (fs ++ [g])) as Hsave.
  { apply Forall_app. split; [done|]. by constructor. }
  pose proof fits_nil as Hnil.
  unfold csv.parse_process_char, csv.start_field. simpl csv.state.
  destruct st, c as [ch|]; unfold csv.set_state, csv.parse_save_field; simpl;
    rewrite ?add_char_then_eq, ?parse_add_char_eq;
    repeat (case_bool_decide || case_match || case_decide);
    intros [= <-]; by split.
Qed.

Lemma feed_line_within (line : string) (p p' : csv.ReaderObj) :
  within p -> csv.feed_line p line = Return p' -> within p'.
Proof.
  revert p. induction line as [|c l IH]; intros p Hp; simpl.
  - by apply process_char_within.
  - destruct (csv.parse_process_char p (Some c)) as [p1|e] eqn:H1; [|done].
    apply IH. by eapply process_char_within.
Qed.

Lemma reader_within (lines : list string) (p : csv.ReaderObj) (rows : list (list string)) :
  within p -> csv.reader p lines = Return rows -> Forall (Forall fits) rows.
Proof.
  revert p rows. induction lines as [|l ls IH]; intros p rows Hp; simpl.
  - destruct Hp as [Hfs Hg]. case_match; intros [= <-]; [|constructor].
    constructor; [|constructor]. simpl. apply Forall_app. split; [done|]. by constructor.
  - destruct (csv.feed_line p l) as [p'|e] eqn:Hfeed; [|done].
    pose proof (feed_line_within _ _ _ Hp Hfeed) as Hp'.
    case_bool_decide; [|by apply IH].
    destruct (csv.reader csv.parse_reset ls) as [rows'|e] eqn:Hr; [|done].
    simpl. intros [= <-]. constructor; [apply Hp'|].
    eapply (IH csv.parse_reset); [|done]. split; [constructor|apply fits_nil].
Qed.

(** ** Reading back what the writer wrote *)

Lemma rest_lines_start (text : string) : rest_lines false text = readlines text.
Proof. unfold rest_lines. by destruct (readlines text). Qed.

Lemma rest_lines_cons (b : bool) (c : ascii) (s : string) :
  rest_lines b (String c s) = readlines (String c s).
Proof.
  unfold rest_lines. destruct (readlines (String c s)) eqn:E; [|done].
  exfalso. simpl in E. repeat (case_bool_decide || case_match); simplify_eq.
Qed.

(** Inside quotes the end of a line changes nothing. *)
Lemma quoted_mid (p : csv.ReaderObj) (b : bool) (s : string) :
  csv.state p = csv.IN_QUOTED_FIELD ->
  csv.reader p (rest_lines b s) = csv.reader p (rest_lines true s).
Proof.
  intros Hst. unfold rest_lines. destruct (readlines s); [|done].
  destruct b; [done|].
  destruct p as [st fs f]; simpl in *; subst st. simpl. by rewrite !orb_true_r.
Qed.

Lemma reader_cons_char (p : csv.ReaderObj) (c : ascii) (l : string) (ls : list string) :
  csv.reader p (String c l :: ls)
  = then_read (csv.parse_process_char p (Some c)) (l :: ls).
Proof. simpl. by destruct (csv.parse_process_char p (Some c)). Qed.

(** A character that is no line break is fed to the parser and the line goes
    on. *)
Lemma read_char (p : csv.ReaderObj) (b : bool) (c : ascii) (s : string) :
  csv.is_newline c = false ->
  csv.reader p (rest_lines b (String c s))
  = then_read (csv.parse_process_char p (Some c)) (rest_lines true s).
Proof.
  intros Hnl. rewrite rest_lines_cons. unfold rest_lines. simpl readlines.
  unfold csv.is_newline in Hnl. apply orb_false_iff in Hnl as [H1 H2].
  rewrite H1, H2.
  destruct (readlines s) as [|l ls]; simpl;
    by destruct (csv.parse_process_char p (Some c)).
Qed.

Lemma quoted_char_step (fs : list string) (g : string) (c : ascii) :
  c <> QUOTE ->
  csv.parse_process_char (csv.mkReader csv.IN_QUOTED_FIELD fs g) (Some c)
  = if decide (fits (g +:+ String c ""))
    then Return (csv.mkReader csv.IN_QUOTED_FIELD fs (g +:+ String c ""))
    else Raise CsvError.
Proof.
  intros Hc. unfold csv.parse_process_char. simpl.
  rewrite bool_decide_eq_false_2 by done. apply parse_add_char_eq.
Qed.

Lemma readlines_break (c : ascii) (s : string) :
  csv.is_newline c = true ->
  readlines (String c s) = String c "" :: readlines s
  \/ exists s', c = CR /\ s = String LF s'
       /\ readlines (String c s) = String CR (String LF "") :: readlines s'.
Proof.
  unfold csv.is_newline. intros Hnl.
  apply orb_true_iff in Hnl as [Hc|Hc]; apply bool_decide_eq_true in Hc; subst c.
  { by left. }
  destruct s as [|c' s']; [by left|].
  destruct (decide (c' = LF)) as [->|Hne].
  - right. by exists s'.
  - left. simpl. by rewrite (bool_decide_eq_false_2 (c' = LF)).
Qed.

(** Inside quotes every character is, line breaks included. *)
Lemma read_quoted_char (p : csv.ReaderObj) (b : bool) (c : ascii) (s : string) :
  csv.state p = csv.IN_QUOTED_FIELD ->
  csv.reader p (rest_lines b (String c s))
  = then_read (csv.parse_process_char p (Some c)) (rest_lines true s).
Proof.
  intros Hst. destruct (csv.is_newline c) eqn:Hnl; [|by apply read_char].
  assert (c <> QUOTE) as Hq by (by intros ->).
  destruct p as [st fs g]; simpl in Hst; subst st.
  rewrite rest_lines_cons.
  destruct (readlines_break c s Hnl) as [->|(s' & -> & -> & ->)].
  - rewrite reader_cons_char, quoted_char_step by done.
    case_decide; [|done]. simpl then_read.
    rewrite <- (quoted_mid _ false), rest_lines_start by done. reflexivity.
  - rewrite reader_cons_char. by rewrite rest_lines_cons.
Qed.

(** The line terminator ends the record. *)
Lemma read_crlf (p : csv.ReaderObj) (b : bool) (s : string) :
  csv.state p = csv.START_FIELD \/ csv.state p = csv.IN_FIELD
  \/ csv.state p = csv.QUOTE_IN_QUOTED_FIELD ->
  csv.reader p (rest_lines b (csv.lineterminator +:+ s))
  = outcome_map (cons (csv.fields p ++ [csv.field p]))
      (csv.reader csv.parse_reset (readlines s)).
Proof.
  intros Hst. unfold csv.lineterminator. rewrite !sapp_cons, sapp_nil_l.
  rewrite rest_lines_cons.
  destruct p as [st fs f]; simpl in Hst.
  destruct Hst as [->|[->| ->]]; reflexivity.
Qed.

Lemma read_crlf_start (b : bool) (s : string) :
  csv.reader csv.parse_reset (rest_lines b (csv.lineterminator +:+ s))
  = outcome_map (cons []) (csv.reader csv.parse_reset (readlines s)).
Proof.
  unfold csv.lineterminator. rewrite !sapp_cons, sapp_nil_l.
  rewrite rest_lines_cons. reflexivity.
Qed.

Lemma special_false (c : ascii) :
  csv.special c = false ->
  c <> COMMA /\ c <> QUOTE /\ csv.is_newline c = false.
Proof.
  unfold csv.special, csv.is_newline. intros H.
  repeat (apply orb_false_iff in H as [H ?]).
  repeat match goal with
         | H : bool_decide _ = false |- _ => apply bool_decide_eq_false in H
         end.
  rewrite !bool_decide_eq_false_2 by done. done.
Qed.

Lemma join_append_data_unquoted (f : string) :
  csv.quoted f = false -> csv.join_append_data f = f.
Proof.
  induction f as [|c f IH]; [done|]. simpl. intros H.
  apply orb_false_iff in H as [Hc Hf].
  apply special_false in Hc as (_ & Hq & _).
  rewrite bool_decide_eq_false_2 by done. by rewrite IH.
Qed.

Lemma in_field_step (fs : list string) (g : string) (c : ascii) :
  csv.special c = false ->
  csv.parse_process_char (csv.mkReader csv.IN_FIELD fs g) (Some c)
  = if decide (fits (g +:+ String c ""))
    then Return (csv.mkReader csv.IN_FIELD fs (g +:+ String c ""))
    else Raise CsvError.
Proof.
  intros Hc. apply special_false in Hc as (Hcomma & Hquote & Hnl).
  unfold csv.parse_process_char; simpl.
  rewrite Hnl. rewrite bool_decide_eq_false_2 by congruence. simpl.
  apply parse_add_char_eq.
Qed.

Lemma sapp_snoc (g : string) (c : ascii) (f : string) :
  (g +:+ String c "") +:+ f = g +:+ String c f.
Proof. by rewrite sapp_assoc, sapp_cons, sapp_nil_l. Qed.

(** The characters of an unquoted field are collected one by one, as long as
    the field stays within the limit. *)
Lemma read_unquoted (f : string) (fs : list string) (g : string) (b : bool) (s : string) :
  csv.quoted f = false ->
  csv.reader (csv.mkReader csv.IN_FIELD fs g) (rest_lines b (f +:+ s))
  = if decide (fits (g +:+ f))
    then csv.reader (csv.mkReader csv.IN_FIELD fs (g +:+ f)) (rest_lines (b || truthy f) s)
    else if decide (f = "")
    then csv.reader (csv.mkReader csv.IN_FIELD fs g) (rest_lines b s)
    else Raise CsvError.
Proof.
  revert g b. induction f as [|c f IH]; intros g b Hq.
  - rewrite sapp_nil_l, sapp_nil_r, orb_false_r. by repeat case_decide.
  - simpl in Hq. apply orb_false_iff in Hq as [Hc Hf].
    pose proof (special_false c Hc) as (_ & _ & Hnl).
    rewrite (decide_False (P := String c f = "")) by done.
    rewrite sapp_cons, read_char by done. rewrite in_field_step by done.
    destruct (decide (fits (g +:+ String c ""))) as [Hfit|Hfit].
    + simpl then_read. rewrite IH by done. rewrite sapp_snoc.
      rewrite truthy_cons, orb_true_r.
      destruct (decide (fits (g +:+ String c f))) as [Hfit'|Hfit']; [done|].
      destruct (decide (f = "")) as [Hnil|Hnil]; [|done].
      by subst f.
    + rewrite decide_False; [done|].
      intros Hfit'. apply Hfit. rewrite <- sapp_snoc in Hfit'.
      by apply fits_app_l in Hfit'.
Qed.

(** The data of a quoted field are collected up to the closing quote. *)
Lemma read_quoted (f : string) (fs : list string) (g : string) (b : bool) (s : string) :
  csv.reader (csv.mkReader csv.IN_QUOTED_FIELD fs g)
    (rest_lines b (csv.join_append_data f +:+ s))
  = if decide (fits (g +:+ f))
    then csv.reader (csv.mkReader csv.IN_QUOTED_FIELD fs (g +:+ f)) (rest_lines true s)
    else if decide (f = "")
    then csv.reader (csv.mkReader csv.IN_QUOTED_FIELD fs g) (rest_lines true s)
    else Raise CsvError.
Proof.
  revert g b. induction f as [|c f IH]; intros g b.
  - simpl. rewrite sapp_nil_l, sapp_nil_r.
    rewrite (quoted_mid _ b) by done. by repeat case_decide.
  - rewrite (decide_False (P := String c f = "")) by done.
    assert (forall b',
      then_read (if decide (fits (g +:+ String c ""))
                 then Return (csv.mkReader csv.IN_QUOTED_FIELD fs (g +:+ String c ""))
                 else Raise CsvError)
        (rest_lines b' (csv.join_append_data f +:+ s))
      = if decide (fits (g +:+ String c f))
        then csv.reader (csv.mkReader csv.IN_QUOTED_FIELD fs (g +:+ String c f))
               (rest_lines true s)
        else Raise CsvError) as Hstep.
    { intros b'. destruct (decide (fits (g +:+ String c ""))) as [Hfit|Hfit].
      - simpl then_read. rewrite IH, sapp_snoc.
        destruct (decide (fits (g +:+ String c f))) as [Hfit'|Hfit']; [done|].
        destruct (decide (f = "")) as [Hnil|Hnil]; [|done].
        by subst f.
      - rewrite decide_False; [done|].
        intros Hfit'. apply Hfit. rewrite <- sapp_snoc in Hfit'.
        by apply fits_app_l in Hfit'. }
    simpl csv.join_append_data. case_bool_decide as Hq.
    + subst c. rewrite !sapp_cons. rewrite read_quoted_char by done.
      unfold csv.parse_process_char at 1; simpl.
      rewrite read_char by done.
      unfold csv.parse_process_char at 1; simpl.
      unfold csv.set_state; simpl. rewrite add_char_then_eq. apply Hstep.
    + rewrite sapp_cons, read_quoted_char by done.
      rewrite quoted_char_step by done. apply Hstep.
Qed.

Lemma fits_char (c : ascii) : fits (String c "").
Proof. unfold fits, csv.field_limit. simpl. lia. Qed.

(** One field as [csv.writer] wrote it: the parser collects it when it is
    within the limit. *)
Lemma read_field (p : csv.ReaderObj) (f : string) (b : bool) (s : string) :
  csv.state p = csv.START_RECORD \/ csv.state p = csv.START_FIELD ->
  csv.field p = "" ->
  fits f ->
  exists q b',
    csv.reader p (rest_lines b (csv.join_append (Some f) +:+ s))
    = csv.reader q (rest_lines b' s)
    /\ field_done (csv.fields p) f q
    /\ (csv.state q = csv.START_RECORD -> csv.state p = csv.START_RECORD /\ f = "").
Proof.
  intros Hst Hf Hfit. destruct p as [st fs g]; simpl in *; subst g.
  unfold csv.join_append. destruct (csv.quoted f) eqn:Hq.
  - exists (csv.mkReader csv.QUOTE_IN_QUOTED_FIELD fs f), true.
    split; [|split; [split; [done|left; auto]|done]].
    rewrite sapp_cons, sapp_assoc, read_char by done.
    assert (csv.parse_process_char (csv.mkReader st fs "") (Some QUOTE)
            = Return (csv.mkReader csv.IN_QUOTED_FIELD fs "")) as ->.
    { by destruct Hst; subst st. }
    simpl then_read. rewrite read_quoted, sapp_nil_l, decide_True by done.
    rewrite sapp_cons, sapp_nil_l.
    rewrite read_char by done. reflexivity.
  - rewrite join_append_data_unquoted by done.
    destruct f as [|c f].
    + exists (csv.mkReader st fs ""), b. rewrite sapp_nil_l.
      split; [done|]. split; [split; [done|right; simpl; tauto]|].
      simpl. intros Hst'. by subst st.
    + exists (csv.mkReader csv.IN_FIELD fs (String c f)), true.
      split; [|split; [split; [done|left; auto]|done]].
      simpl in Hq. apply orb_false_iff in Hq as [Hc Hq].
      apply special_false in Hc as (Hcomma & Hquote & Hnl).
      rewrite sapp_cons, read_char by done.
      assert (csv.parse_process_char (csv.mkReader st fs "") (Some c)
              = Return (csv.mkReader csv.IN_FIELD fs (String c ""))) as ->.
      { destruct Hst; subst st; unfold csv.parse_process_char, csv.start_field;
          simpl; rewrite Hnl, !bool_decide_eq_false_2 by done;
          unfold csv.set_state; simpl; rewrite add_char_then_eq, sapp_nil_l;
          by rewrite decide_True by apply fits_char. }
      simpl then_read. rewrite read_unquoted by done.
      rewrite sapp_cons, sapp_nil_l. by rewrite decide_True.
Qed.

(** A field over the limit makes the reader raise. *)
Lemma read_field_over (p : csv.ReaderObj) (f : string) (b : bool) (s : string) :
  csv.state p = csv.START_RECORD \/ csv.state p = csv.START_FIELD ->
  csv.field p = "" ->
  ~ fits f ->
  csv.reader p (rest_lines b (csv.join_append (Some f) +:+ s)) = Raise CsvError.
Proof.
  intros Hst Hf Hfit. destruct p as [st fs g]; simpl in *; subst g.
  assert (f <> "") as Hne by (intros ->; apply Hfit, fits_nil).
  unfold csv.join_append. destruct (csv.quoted f) eqn:Hq.
  - rewrite sapp_cons, sapp_assoc, read_char by done.
    assert (csv.parse_process_char (csv.mkReader st fs "") (Some QUOTE)
            = Return (csv.mkReader csv.IN_QUOTED_FIELD fs "")) as ->.
    { by destruct Hst; subst st. }
    simpl then_read. rewrite read_quoted, sapp_nil_l.
    by rewrite !decide_False.
  - rewrite join_append_data_unquoted by done.
    destruct f as [|c f]; [done|].
    simpl in Hq. apply orb_false_iff in Hq as [Hc Hq].
    apply special_false in Hc as (Hcomma & Hquote & Hnl).
    rewrite sapp_cons, read_char by done.
    assert (csv.parse_process_char (csv.mkReader st fs "") (Some c)
            = Return (csv.mkReader csv.IN_FIELD fs (String c ""))) as ->.
    { destruct Hst; subst st; unfold csv.parse_process_char, csv.start_field;
        simpl; rewrite Hnl, !bool_decide_eq_false_2 by done;
        unfold csv.set_state; simpl; rewrite add_char_then_eq, sapp_nil_l;
        by rewrite decide_True by apply fits_char. }
    simpl then_read. rewrite read_unquoted by done.
    rewrite sapp_cons, sapp_nil_l. rewrite decide_False by done.
    rewrite decide_False; [done|].
    intros ->. apply Hfit, fits_char.
Qed.

Lemma read_comma (fs : list string) (f : string) (q : csv.ReaderObj) (b : bool) (s : string) :
  field_done fs f q ->
  csv.reader q (rest_lines b (String COMMA s))
  = csv.reader (csv.mkReader csv.START_FIELD (fs ++ [f]) "") (rest_lines true s).
Proof.
  intros [Hfs H]. rewrite read_char by done.
  destruct q as [st gs g]; simpl in *; subst gs.
  destruct H as [[[-> | ->] ->]|[[-> | ->] [-> ->]]]; reflexivity.
Qed.

Lemma read_terminator (fs : list string) (f : string) (q : csv.ReaderObj) (b : bool) (s : string) :
  field_done fs f q ->
  csv.state q <> csv.START_RECORD ->
  csv.reader q (rest_lines b (csv.lineterminator +:+ s))
  = outcome_map (cons (fs ++ [f])) (csv.reader csv.parse_reset (readlines s)).
Proof.
  intros [Hfs H] Hst.
  destruct q as [st gs g]; simpl in *; subst gs.
  destruct H as [[[-> | ->] ->]|[[-> | ->] [-> ->]]]; try done;
    by rewrite read_crlf by (simpl; auto).
Qed.

Lemma sapp_cons_not_nil (s : string) (c : ascii) (t : string) : s +:+ String c t <> "".
Proof. by destruct s. Qed.

Lemma join_append_empty (f : string) : csv.join_append (Some f) = "" -> f = "".
Proof.
  unfold csv.join_append. destruct (csv.quoted f) eqn:Hq; [done|].
  by rewrite join_append_data_unquoted.
Qed.

Lemma read_back_cons {A} (f : string) (row : list string) (rest : outcome A) :
  read_back (f :: row) rest = if decide (fits f) then read_back row rest else Raise CsvError.
Proof.
  unfold read_back. destruct (decide (fits f)) as [Hf|Hf].
  - destruct (decide (Forall fits row)) as [Hrow|Hrow].
    + by rewrite decide_True by by constructor.
    + rewrite decide_False; [done|]. intros H. apply Hrow. by inversion H.
  - rewrite decide_False; [done|]. intros H. apply Hf. by inversion H.
Qed.

Lemma read_back_fits {A} (row : list string) (rest : outcome A) :
  Forall fits row -> read_back row rest = rest.
Proof. intros H. unfold read_back. by rewrite decide_True. Qed.

(** The fields of a record, delimiters between them, then the line
    terminator: the parser returns the record when its fields are within
    the limit, and raises when one is not. *)
Lemma read_fields (row : list string) (p : csv.ReaderObj) (b : bool) (s : string) :
  row <> [] ->
  csv.state p = csv.START_FIELD \/ (csv.state p = csv.START_RECORD /\ row <> [""]) ->
  csv.field p = "" ->
  csv.reader p (rest_lines b
    (csv.join (csv.join_append <$> (Some <$> row)) +:+ csv.lineterminator +:+ s))
  = read_back row
      (outcome_map (cons (csv.fields p ++ row)) (csv.reader csv.parse_reset (readlines s))).
Proof.
  revert p b. induction row as [|f row IH]; intros p b Hne Hst Hf; [done|].
  rewrite read_back_cons.
  assert (csv.join (csv.join_append <$> (Some <$> f :: row)) +:+ csv.lineterminator +:+ s
          = csv.join_append (Some f) +:+
              match row with
              | [] => csv.lineterminator +:+ s
              | _ => String COMMA (csv.join (csv.join_append <$> (Some <$> row))
                                   +:+ csv.lineterminator +:+ s)
              end) as ->.
  { destruct row as [|f' row]; [done|].
    change (csv.join (csv.join_append <$> (Some <$> f :: f' :: row)))
      with (csv.join_append (Some f) +:+ String COMMA
              (csv.join (csv.join_append <$> (Some <$> f' :: row)))).
    by rewrite sapp_assoc, sapp_cons. }
  case_decide as Hfit; [|apply read_field_over; [tauto|done..]].
  destruct (read_field p f b
              (match row with
               | [] => csv.lineterminator +:+ s
               | _ => String COMMA (csv.join (csv.join_append <$> (Some <$> row))
                                    +:+ csv.lineterminator +:+ s)
               end)) as (q & b' & Hq & Hdone & Hstart); [tauto|done..|].
  rewrite Hq. destruct row as [|f' row].
  - rewrite read_back_fits by constructor. apply read_terminator; [done|].
    intros Hq'. destruct (Hstart Hq') as [Hp Hempty]. subst f.
    destruct Hst as [Hst|[_ Hst]]; [congruence|by apply Hst].
  - rewrite (read_comma _ _ _ _ _ Hdone).
    rewrite IH by (simpl; auto). simpl. by rewrite <- (assoc_L (++)).
Qed.

(** One row written by [csv.writer] in front of [s] is read back as that
    row, followed by what [s] holds; a row with a field over the limit makes
    the reader raise. *)
Lemma read_writerow (row : list string) (s : string) :
  csv.reader csv.parse_reset (readlines (csv.writerow (Some <$> row) +:+ s))
  = read_back row (outcome_map (cons row) (csv.reader csv.parse_reset (readlines s))).
Proof.
  rewrite <- !rest_lines_start.
  destruct row as [|f row].
  { change (csv.writerow (Some <$> [])) with csv.lineterminator.
    rewrite read_crlf_start, read_back_fits by constructor. by rewrite rest_lines_start. }
  unfold csv.writerow.
  rewrite (bool_decide_eq_true_2 (Some <$> f :: row ≠ [])) by done.
  rewrite andb_true_l. case_bool_decide as Hrec.
  - assert (f = "" /\ row = []) as [-> ->].
    { destruct row as [|f' row]; simpl in Hrec.
      - split; [|done]. by apply join_append_empty.
      - by apply sapp_cons_not_nil in Hrec. }
    rewrite read_back_fits by (constructor; [apply fits_nil|constructor]).
    rewrite !sapp_cons, sapp_nil_l. rewrite read_char by done.
    change (csv.parse_process_char csv.parse_reset (Some QUOTE))
      with (Return (csv.mkReader csv.IN_QUOTED_FIELD [] "")).
    unfold then_read at 1. rewrite read_char by done.
    change (csv.parse_process_char (csv.mkReader csv.IN_QUOTED_FIELD [] "") (Some QUOTE))
      with (Return (csv.mkReader csv.QUOTE_IN_QUOTED_FIELD [] "")).
    unfold then_read at 1.
    rewrite read_crlf by (simpl; auto). by rewrite rest_lines_start.
  - rewrite sapp_assoc. rewrite read_fields; [by rewrite rest_lines_start|done| |done].
    right. split; [done|]. intros [= -> ->]. by apply Hrec.
Qed.

(** ** The persisted file of a store *)

Lemma record_lines_app (rs1 rs2 : list update_record) :
  record_lines (rs1 ++ rs2) = record_lines rs1 +:+ record_lines rs2.
Proof.
  induction rs1 as [|r rs1 IH]; [done|].
  simpl. by rewrite IH, sapp_assoc.
Qed.

(** The rows of a store are read back when every field is within the limit;
    one field over it and the reader raises. *)
Lemma read_record_lines (rs : list update_record) :
  csv.reader csv.parse_reset (readlines (record_lines rs))
  = if decide (Forall bounded rs) then Return (cells <$> rs) else Raise CsvError.
Proof.
  induction rs as [|r rs IH]; [done|].
  simpl record_lines. unfold record_line. rewrite read_writerow, IH.
  unfold read_back. fold (bounded r).
  destruct (decide (bounded r)) as [Hr|Hr].
  - destruct (decide (Forall bounded rs)) as [Hrs|Hrs].
    + by rewrite decide_True by by constructor.
    + rewrite decide_False; [done|]. intros H. apply Hrs. by inversion H.
  - rewrite decide_False; [done|]. intros H. apply Hr. by inversion H.
Qed.

Lemma row_dict_cells (r : update_record) :
  DictReader.row_dict FIELDNAMES (cells r) = to_dict r.
Proof. reflexivity. Qed.

Lemma rows_cells (rs : list update_record) :
  DictReader.rows (FIELDNAMES :: (cells <$> rs)) = to_dict <$> rs.
Proof.
  unfold DictReader.rows.
  induction rs as [|r rs IH]; [done|].
  rewrite !fmap_cons, filter_cons_True by done.
  by rewrite fmap_cons, IH, row_dict_cells.
Qed.

(** Reading the persisted file of a store gives back its records when their
    fields are within the reader's limit, and raises [csv.Error] when one is
    not. *)
Lemma read_store_text (rs : list update_record) :
  DictReader.read (store_text rs)
  = if decide (Forall bounded rs) then Return (to_dict <$> rs) else Raise CsvError.
Proof.
  unfold DictReader.read, store_text, header_line.
  rewrite read_writerow, read_back_fits by apply fits_FIELDNAMES.
  rewrite read_record_lines. case_decide; [|done].
  unfold outcome_map. by rewrite rows_cells.
Qed.

Lemma read_store_bounded (rs : list update_record) :
  Forall bounded rs -> DictReader.read (store_text rs) = Return (to_dict <$> rs).
Proof. intros H. by rewrite read_store_text, decide_True. Qed.

Lemma read_store_over (rs : list update_record) :
  ~ Forall bounded rs -> DictReader.read (store_text rs) = Raise CsvError.
Proof. intros H. by rewrite read_store_text, decide_False. Qed.

Lemma header_text_eq : DictWriter.header_text FIELDNAMES = Return header_line.
Proof. reflexivity. Qed.

Lemma get_to_dict (r : update_record) :
  get (to_dict r) "timestamp" = Some (r_timestamp r)
  /\ get (to_dict r) "handled_by" = Some (r_handled_by r)
  /\ get (to_dict r) "stock_id" = Some (r_stock_id r)
  /\ get (to_dict r) "vin" = Some (r_vin r)
  /\ get (to_dict r) "current_location" = Some (r_current_location r)
  /\ get (to_dict r) "previous_location" = Some (r_previous_location r).
Proof. repeat split; reflexivity. Qed.

Lemma row_text_to_dict (r : update_record) :
  DictWriter.row_text FIELDNAMES (to_dict r) = Return (record_line r).
Proof. reflexivity. Qed.

(** ** The rows the reader returns hold fields within the limit *)

Lemma zip_insert_values (keys values : list string) (m : gmap string (option string))
  (k v : string) :
  foldl (fun m kv => <[kv.1 := Some kv.2]> m) m (zip keys values) !! k = Some (Some v) ->
  v ∈ values \/ m !! k = Some (Some v).
Proof.
  revert values m. induction keys as [|key keys IH]; intros values m; [by right|].
  destruct values as [|value values]; [by right|].
  simpl. intros H. apply IH in H as [H|H].
  - left. by right.
  - destruct (decide (key = k)) as [->|Hne].
    + rewrite lookup_insert_eq in H. left. injection H as ->. by left.
    + rewrite lookup_insert_ne in H by done. by right.
Qed.

Lemma dict_zip_values (keys values : list string) (k v : string) :
  dict_zip keys values !! k = Some (Some v) -> v ∈ values.
Proof.
  unfold dict_zip. intros H. apply zip_insert_values in H as [H|H]; [done|].
  by rewrite lookup_empty in H.
Qed.

Lemma fill_none_values (keys : list string) (m : gmap string (option string))
  (k v : string) :
  foldl (fun m key => <[key := None]> m) m keys !! k = Some (Some v) ->
  m !! k = Some (Some v).
Proof.
  revert m. induction keys as [|key keys IH]; intros m; [done|].
  simpl. intros H. apply IH in H.
  destruct (decide (key = k)) as [->|Hne].
  - by rewrite lookup_insert_eq in H.
  - by rewrite lookup_insert_ne in H.
Qed.

Lemma row_dict_values (fieldnames row : list string) (k v : string) :
  named (DictReader.row_dict fieldnames row) !! k = Some (Some v) -> v ∈ row.
Proof.
  unfold DictReader.row_dict. repeat case_match; simpl; intros Hv.
  - by apply dict_zip_values in Hv.
  - apply fill_none_values in Hv. by apply dict_zip_values in Hv.
  - by apply dict_zip_values in Hv.
Qed.

Lemma read_values (text : string) (rows : list dict) :
  DictReader.read text = Return rows ->
  Forall (fun d => forall k v, named d !! k = Some (Some v) -> fits v) rows.
Proof.
  unfold DictReader.read.
  destruct (csv.reader _ _) as [rs|e] eqn:Hr; [|done].
  simpl. intros [= <-].
  apply reader_within in Hr; [|split; [constructor|apply fits_nil]].
  destruct rs as [|fieldnames rs]; [constructor|].
  unfold DictReader.rows. rewrite Forall_fmap. apply Forall_forall.
  intros row Hrow k v Hv. simpl in Hv.
  apply list_elem_of_filter in Hrow as [_ Hrow].
  apply row_dict_values in Hv.
  inversion Hr as [|? ? _ Hrs]; subst.
  rewrite Forall_forall in Hrs. specialize (Hrs row Hrow).
  rewrite Forall_forall in Hrs. by apply Hrs.
Qed.

(** Records that were read from a file are within the limit. *)
Lemma read_records_bounded (text : string) (rs : list update_record) :
  DictReader.read text = Return (to_dict <$> rs) -> Forall bounded rs.
Proof.
  intros H. apply read_values in H. rewrite Forall_fmap in H.
  apply (Forall_impl _ _ _ H). intros r Hr. simpl in Hr.
  unfold bounded, cells. repeat constructor.
  - by apply (Hr "timestamp").
  - by apply (Hr "handled_by").
  - by apply (Hr "stock_id").
  - by apply (Hr "vin").
  - by apply (Hr "current_location").
  - by apply (Hr "previous_location").
Qed.

Lemma bounded_filter (P : update_record -> Prop) `{forall r, Decision (P r)}
  (rs : list update_record) :
  Forall bounded rs -> Forall bounded (filter P rs).
Proof.
  rewrite !Forall_forall. intros Hrs r Hr.
  apply list_elem_of_filter in Hr as [_ Hr]. by apply Hrs.
Qed.

(** ** The functions of app.py, step by step *)

Lemma set_csv_id (w : world) : set_csv w (csv_file w) = w.
Proof. by destruct w. Qed.

Lemma set_csv_set_csv (w : world) (f g : option string) :
  set_csv (set_csv w f) g = set_csv w g.
Proof. done. Qed.

Lemma stored_csv (rs : list update_record) (w : world) :
  csv_file w = Some (store_text rs) -> stored rs w = w.
Proof. intros H. unfold stored. rewrite <- H. apply set_csv_id. Qed.

Lemma bind_return {A B} (m : M A) (k : A -> M B) (a : A) (w w' : world) :
  m w = (Return a, w') -> (m ≫= k) w = k a w'.
Proof. intros H. unfold mbind, M_bind. by rewrite H. Qed.

Lemma bind_raise {A B} (m : M A) (k : A -> M B) (e : exn) (w w' : world) :
  m w = (Raise e, w') -> (m ≫= k) w = (Raise e, w').
Proof. intros H. unfold mbind, M_bind. by rewrite H. Qed.

Lemma init_csv_eq (w : world) :
  _init_csv w = (Return tt, set_csv w (Some (init_text w))).
Proof.
  unfold _init_csv, init_text, mbind, M_bind, CSV_PATH_exists.
  destruct w as [[text|] x p]; reflexivity.
Qed.

Lemma load_records_eq (w : world) :
  _load_records w = (DictReader.read (init_text w), set_csv w (Some (init_text w))).
Proof.
  unfold _load_records, mbind, M_bind. rewrite init_csv_eq.
  unfold CSV_PATH_open_r, lift. simpl. by destruct (DictReader.read _).
Qed.

Lemma load_records_present (w : world) (text : string) :
  csv_file w = Some text ->
  _load_records w = (DictReader.read text, w).
Proof.
  intros H. rewrite load_records_eq. unfold init_text. rewrite H. simpl.
  by rewrite <- H, set_csv_id.
Qed.

Lemma load_records_read (w : world) (rows : list dict) :
  (_load_records w).1 = Return rows -> DictReader.read (init_text w) = Return rows.
Proof. by rewrite load_records_eq. Qed.

Lemma load_records_bounded (w : world) (rs : list update_record) :
  (_load_records w).1 = Return (to_dict <$> rs) -> Forall bounded rs.
Proof. intros H. apply load_records_read in H. by apply read_records_bounded in H. Qed.

Lemma find_previous_location_eq (vin stock_id : string) (w : world) :
  _find_previous_location vin stock_id w
  = match csv_file w with
    | None => (Return None, w)
    | Some text =>
        (outcome_map (foldl (previous_step vin stock_id) None) (DictReader.read text), w)
    end.
Proof.
  unfold _find_previous_location, mbind, M_bind, CSV_PATH_exists, CSV_PATH_open_r, lift.
  destruct w as [[text|] x p]; simpl; [|done].
  by destruct (DictReader.read text).
Qed.

Lemma find_previous_location_world (vin stock_id : string) (w : world) :
  (_find_previous_location vin stock_id w).2 = w.
Proof. rewrite find_previous_location_eq. by destruct (csv_file w). Qed.

Lemma find_latest_eq (vin : string) (w : world) :
  _find_latest_record_by_vin vin w
  = (outcome_map (foldl (latest_step vin) None) (DictReader.read (init_text w)),
     set_csv w (Some (init_text w))).
Proof.
  unfold _find_latest_record_by_vin, mbind, M_bind. rewrite load_records_eq.
  by destruct (DictReader.read _).
Qed.

(** ** The lookup loops *)

Lemma latest_loop (vin : string) (rows : list dict) (latest : option dict) :
  foldl (latest_step vin) latest rows
  = from_option Some latest (latest_by_vin vin rows).
Proof.
  unfold latest_by_vin.
  induction rows as [|row rows IH] using rev_ind; [done|].
  rewrite foldl_snoc, filter_app, IH. unfold latest_step, eq_str.
  case_bool_decide as Hvin.
  - rewrite filter_cons_True, filter_nil by done. by rewrite last_snoc.
  - rewrite filter_cons_False, filter_nil by done. by rewrite (right_id_L [] (++)).
Qed.

Lemma latest_loop_none (vin : string) (rows : list dict) :
  foldl (latest_step vin) None rows = latest_by_vin vin rows.
Proof. rewrite latest_loop. by destruct (latest_by_vin vin rows). Qed.

Lemma matches_either_bool (vin stock_id : string) (row : dict) :
  eq_str (get row "vin") vin || eq_str (get row "stock_id") stock_id
  = bool_decide (matches_either vin stock_id row).
Proof.
  unfold eq_str, matches_either.
  repeat case_bool_decide; simpl; try done; tauto.
Qed.

Lemma or_else_location (row : dict) (previous : option string) :
  or_else (get row "current_location") Some previous
  = if has_location row then get row "current_location" else previous.
Proof.
  unfold or_else, has_location.
  destruct (get row "current_location") as [s|]; [|done].
  by destruct (truthy s).
Qed.

Lemma previous_loop (vin stock_id : string) (rows : list dict) (previous : option string) :
  foldl (previous_step vin stock_id) previous rows
  = match last (filter (fun row => matches_either vin stock_id row
                                   /\ has_location row = true) rows) with
    | Some row => get row "current_location"
    | None => previous
    end.
Proof.
  induction rows as [|row rows IH] using rev_ind; [done|].
  rewrite foldl_snoc, filter_app, IH. unfold previous_step.
  rewrite matches_either_bool, or_else_location.
  case_bool_decide as Hm; [destruct (has_location row) eqn:Hloc|].
  - rewrite filter_cons_True, filter_nil by done. by rewrite last_snoc.
  - rewrite filter_cons_False, filter_nil by (rewrite Hloc; intros [_ ?]; done).
    by rewrite (right_id_L [] (++)).
  - rewrite filter_cons_False, filter_nil by tauto.
    by rewrite (right_id_L [] (++)).
Qed.

Lemma read_header_line : DictReader.read header_line = Return [].
Proof. reflexivity. Qed.

Lemma load_records_stored_eq (rs : list update_record) (w : world) :
  _load_records (stored rs w)
  = (if decide (Forall bounded rs) then Return (to_dict <$> rs) else Raise CsvError,
     stored rs w).
Proof. erewrite load_records_present by reflexivity. by rewrite read_store_text. Qed.

Lemma load_records_stored (rs : list update_record) (w : world) :
  Forall bounded rs ->
  _load_records (stored rs w) = (Return (to_dict <$> rs), stored rs w).
Proof. intros H. by rewrite load_records_stored_eq, decide_True. Qed.

(** ** Lookups *)

(** The lookup of the previous location reads the same file as [load_all]:
    it returns on the rows [load_all] returns and fails as [load_all]
    fails. *)
Lemma find_previous_location_rows (vin stock_id : string) (w : world) (rows : list dict) :
  (_load_records w).1 = Return rows ->
  _find_previous_location vin stock_id w
  = (Return (last_known_location vin stock_id rows), w).
Proof.
  rewrite load_records_eq, find_previous_location_eq. unfold init_text.
  destruct (csv_file w) as [text|]; simpl.
  - intros ->. simpl. by rewrite previous_loop.
  - rewrite read_header_line. by intros [= <-].
Qed.

Lemma find_previous_location_raises (vin stock_id : string) (w : world) (e : exn) :
  (_load_records w).1 = Raise e ->
  _find_previous_location vin stock_id w = (Raise e, w).
Proof.
  rewrite load_records_eq, find_previous_location_eq. unfold init_text.
  destruct (csv_file w) as [text|]; simpl.
  - by intros ->.
  - by rewrite read_header_line.
Qed.

Lemma find_previous_location_stored_eq (vin stock_id : string) (rs : list update_record)
  (w : world) :
  _find_previous_location vin stock_id (stored rs w)
  = (if decide (Forall bounded rs)
     then Return (last_known_location vin stock_id (to_dict <$> rs))
     else Raise CsvError,
     stored rs w).
Proof.
  case_decide as Hrs.
  - apply find_previous_location_rows. by rewrite load_records_stored.
  - apply find_previous_location_raises. by rewrite load_records_stored_eq, decide_False.
Qed.

Lemma find_previous_location_stored (vin stock_id : string) (rs : list update_record)
  (w : world) :
  Forall bounded rs ->
  _find_previous_location vin stock_id (stored rs w)
  = (Return (last_known_location vin stock_id (to_dict <$> rs)), stored rs w).
Proof. intros H. by rewrite find_previous_location_stored_eq, decide_True. Qed.

Lemma find_latest_stored (vin : string) (rs : list update_record) (w : world) :
  Forall bounded rs ->
  _find_latest_record_by_vin vin (stored rs w)
  = (Return (latest_by_vin vin (to_dict <$> rs)), stored rs w).
Proof.
  intros H. rewrite find_latest_eq. change (init_text (stored rs w)) with (store_text rs).
  rewrite read_store_bounded by done. simpl. by rewrite latest_loop_none.
Qed.

(** C5: find_latest_by_vin returns the last record in insertion order whose
    vin equals the given vin, none when no record has it: it does so on the
    rows [load_all] returns, whatever the file holds, and fails as
    [load_all] fails; on a store of records within the reader's limit it
    returns; on a fresh store, missing or holding the header only,
    find_latest_by_vin and find_previous_location both return none. *)
Theorem find_latest_by_vin_last (vin stock_id : string) (w : world) :
  (forall rows w',
      _load_records w = (Return rows, w') ->
      _find_latest_record_by_vin vin w = (Return (latest_by_vin vin rows), w'))
  /\ (forall e w',
      _load_records w = (Raise e, w') ->
      _find_latest_record_by_vin vin w = (Raise e, w'))
  /\ (forall rs,
      csv_file w = Some (store_text rs) -> Forall bounded rs ->
      _find_latest_record_by_vin vin w = (Return (latest_by_vin vin (to_dict <$> rs)), w))
  /\ (csv_file w = None \/ csv_file w = Some (store_text []) ->
      (_find_latest_record_by_vin vin w).1 = Return None
      /\ (_find_previous_location vin stock_id w).1 = Return None).
Proof.
  split; [|split; [|split]].
  - intros rows w'. rewrite load_records_eq, find_latest_eq. intros [= -> <-].
    simpl. by rewrite latest_loop_none.
  - intros e w'. rewrite load_records_eq, find_latest_eq. by intros [= -> <-].
  - intros rs Hw Hrs. rewrite <- (stored_csv rs w Hw). by apply find_latest_stored.
  - intros Hfresh.
    assert (DictReader.read (init_text w) = Return []) as Hread.
    { unfold init_text. destruct Hfresh as [H|H]; rewrite H; simpl default.
      - exact read_header_line.
      - by apply (read_store_bounded []). }
    split.
    + by rewrite find_latest_eq, Hread.
    + rewrite (find_previous_location_rows _ _ _ []); [done|].
      by rewrite load_records_eq, Hread.
Qed.

Lemma find_latest_by_vin_last_witness :
  (_find_latest_record_by_vin "A" fresh).1 = Return None
  /\ (_find_previous_location "A" "S1" fresh).1 = Return None.
Proof.
  destruct (find_latest_by_vin_last "A" "S1" fresh) as (_ & _ & _ & Hfresh).
  apply Hfresh. left. reflexivity.
Defined.

Lemma filter_located (vin stock_id : string) (rows : list dict) :
  Forall (fun row => has_location row = true) rows ->
  filter (fun row => matches_either vin stock_id row /\ has_location row = true) rows
  = filter (matches_either vin stock_id) rows.
Proof.
  induction 1 as [|row rows Hrow _ IH]; [done|].
  destruct (decide (matches_either vin stock_id row)).
  - rewrite !filter_cons_True by (try split; done). by rewrite IH.
  - rewrite !filter_cons_False by tauto. exact IH.
Qed.

(** C3, as amended: find_previous_location returns the current_location of
    the last record in insertion order that matches the vin or the stock id
    and whose current_location is non-empty, none when there is no such
    record; where every record has a non-empty current_location this is the
    current_location of the last matching record.  It does so on the rows
    [load_all] returns, fails with the error of [load_all] when that fails,
    and returns on a store of records within the reader's limit. *)
Theorem find_previous_location_last_known (vin stock_id : string) (w : world) :
  (forall rows,
      (_load_records w).1 = Return rows ->
      _find_previous_location vin stock_id w
      = (Return (last_known_location vin stock_id rows), w)
      /\ (Forall (fun row => has_location row = true) rows ->
          last_known_location vin stock_id rows
          = last_matching_location vin stock_id rows))
  /\ (forall e,
      (_load_records w).1 = Raise e ->
      _find_previous_location vin stock_id w = (Raise e, w))
  /\ (forall rs,
      csv_file w = Some (store_text rs) -> Forall bounded rs ->
      _find_previous_location vin stock_id w
      = (Return (last_known_location vin stock_id (to_dict <$> rs)), w)).
Proof.
  split; [|split].
  - intros rows Hload. split; [by apply find_previous_location_rows|].
    intros Hall. unfold last_known_location, last_matching_location.
    by rewrite filter_located.
  - intros e. apply find_previous_location_raises.
  - intros rs Hw Hrs. rewrite <- (stored_csv rs w Hw).
    by apply find_previous_location_stored.
Qed.

(** C3 as stated fails: in [moved_store] the last record that matches has
    an empty current_location, and the lookup returns the location of the
    record before it. *)
Lemma find_previous_location_not_last_matching :
  ~ (forall (vin stock_id : string) (w : world) (rows : list dict),
       (_load_records w).1 = Return rows ->
       (_find_previous_location vin stock_id w).1
       = Return (last_matching_location vin stock_id rows)).
Proof.
  intros H.
  specialize (H "A" "S1" (stored moved_store fresh) (to_dict <$> moved_store)).
  assert ((_load_records (stored moved_store fresh)).1 = Return (to_dict <$> moved_store))
    as Hload by (vm_compute; reflexivity).
  specialize (H Hload). vm_compute in H. discriminate H.
Qed.

Lemma find_previous_location_last_known_witness :
  _find_previous_location "A" "S1" (stored moved_store fresh)
  = (Return (last_known_location "A" "S1" (to_dict <$> moved_store)),
     stored moved_store fresh).
Proof.
  destruct (find_previous_location_last_known "A" "S1" (stored moved_store fresh))
    as (Hrows & _).
  apply (Hrows (to_dict <$> moved_store)). vm_compute. reflexivity.
Defined.

Lemma last_known_location_truthy (vin stock_id : string) (rows : list dict) (s : string) :
  last_known_location vin stock_id rows = Some s -> truthy s = true.
Proof.
  unfold last_known_location. intros Hs.
  destruct (last (filter _ rows)) as [r|] eqn:Hr; [|done]. simpl in Hs.
  apply last_Some_elem_of in Hr. apply list_elem_of_filter in Hr as [[_ Hloc] _].
  unfold has_location in Hloc. by rewrite Hs in Hloc.
Qed.

Lemma last_known_location_none (vin stock_id : string) (rows : list dict) :
  Forall (fun r => matches_either vin stock_id r -> has_location r = false) rows ->
  last_known_location vin stock_id rows = None.
Proof.
  intros Hall. unfold last_known_location.
  destruct (last (filter _ rows)) as [r|] eqn:Hr; [|done]. exfalso.
  apply last_Some_elem_of in Hr. apply list_elem_of_filter in Hr as [[Hm Hloc] Hin].
  rewrite Forall_forall in Hall. by rewrite (Hall r Hin Hm) in Hloc.
Qed.

(** C9: when the last record that matches the vin or the stock id has an
    empty current_location, find_previous_location does not return that
    empty value: it returns the current_location of the most recent matching
    record whose current_location is non-empty, and none when every matching
    record has an empty current_location. *)
Theorem find_previous_location_skips_empty
  (vin stock_id : string) (w : world) (rows : list dict) (row : dict) :
  (_load_records w).1 = Return rows ->
  last (filter (matches_either vin stock_id) rows) = Some row ->
  has_location row = false ->
  (_find_previous_location vin stock_id w).1
  = Return (last_known_location vin stock_id rows)
  /\ (_find_previous_location vin stock_id w).1 <> Return (Some "")
  /\ (Forall (fun r => matches_either vin stock_id r -> has_location r = false) rows ->
      (_find_previous_location vin stock_id w).1 = Return None).
Proof.
  intros Hload Hlast Hrow.
  rewrite (find_previous_location_rows _ _ _ _ Hload). simpl.
  split; [done|]. split.
  - intros [= Heq]. by apply last_known_location_truthy in Heq.
  - intros Hall. f_equal. by apply last_known_location_none.
Qed.

Lemma find_previous_location_skips_empty_witness :
  (_find_previous_location "A" "S1" (stored moved_store fresh)).1
  = Return (last_known_location "A" "S1" (to_dict <$> moved_store))
  /\ (_find_previous_location "A" "S1" (stored moved_store fresh)).1 <> Return (Some "")
  /\ (Forall (fun r => matches_either "A" "S1" r -> has_location r = false)
        (to_dict <$> moved_store) ->
      (_find_previous_location "A" "S1" (stored moved_store fresh)).1 = Return None).
Proof.
  apply (find_previous_location_skips_empty "A" "S1" (stored moved_store fresh)
           (to_dict <$> moved_store)
           (to_dict (UpdateRecord "2024-01-02T08:00:00" "Bob" "S1" "A" "" "Lot 1"))).
  - vm_compute. reflexivity.
  - vm_compute. reflexivity.
  - reflexivity.
Defined.

(** ** Deleting by vin *)

Lemma delete_records_eq (vin : string) (w : world) :
  _delete_records_by_vin vin w
  = match DictReader.read (init_text w) with
    | Raise e => (Raise e, set_csv w (Some (init_text w)))
    | Return rows =>
        let acc := foldl (delete_step vin) (0%nat, []) rows in
        match writerows FIELDNAMES acc.2 (set_csv w (Some header_line)) with
        | (Return _, w') => (Return acc.1, w')
        | (Raise e, w') => (Raise e, w')
        end
    end.
Proof.
  unfold _delete_records_by_vin, mbind, M_bind. rewrite init_csv_eq.
  unfold CSV_PATH_exists, CSV_PATH_open_r, lift. simpl.
  destruct (DictReader.read (init_text w)) as [rows|e]; [|done].
  change (foldl _ (0%nat, []) rows) with (foldl (delete_step vin) (0%nat, []) rows).
  destruct (foldl (delete_step vin) (0%nat, []) rows) as [removed remaining].
  reflexivity.
Qed.

Lemma delete_loop (vin : string) (rs : list update_record) (n : nat) (acc : list dict) :
  foldl (delete_step vin) (n, acc) (to_dict <$> rs)
  = ((n + length (filter (fun r => r_vin r = vin) rs))%nat,
     acc ++ (to_dict <$> filter (fun r => r_vin r <> vin) rs)).
Proof.
  revert n acc. induction rs as [|r rs IH]; intros n acc.
  - simpl. by rewrite Nat.add_0_r, (right_id_L [] (++)).
  - rewrite fmap_cons.
    change (foldl (delete_step vin) (n, acc) (to_dict r :: (to_dict <$> rs)))
      with (foldl (delete_step vin) (delete_step vin (n, acc) (to_dict r))
              (to_dict <$> rs)).
    assert (delete_step vin (n, acc) (to_dict r)
            = if bool_decide (r_vin r = vin) then (S n, acc) else (n, acc ++ [to_dict r]))
      as ->.
    { unfold delete_step, eq_str.
      destruct (get_to_dict r) as (_ & _ & _ & Hvin & _). rewrite Hvin.
      repeat case_bool_decide; congruence. }
    case_bool_decide as Heq.
    + rewrite IH, filter_cons_True, filter_cons_False by (auto; congruence).
      simpl. f_equal. lia.
    + rewrite IH, filter_cons_False, filter_cons_True by done.
      rewrite fmap_cons, <- (assoc_L (++)). done.
Qed.

Lemma writerows_records (rs : list update_record) (w : world) (text : string) :
  csv_file w = Some text ->
  writerows FIELDNAMES (to_dict <$> rs) w
  = (Return tt, set_csv w (Some (text +:+ record_lines rs))).
Proof.
  revert w text. induction rs as [|r rs IH]; intros w text Hw.
  - simpl. rewrite sapp_nil_r, <- Hw. by rewrite set_csv_id.
  - rewrite fmap_cons. simpl writerows. unfold mbind, M_bind, writerow.
    rewrite row_text_to_dict.
    destruct w as [f x p]; simpl in Hw; subst f.
    unfold lift, CSV_PATH_write, set_csv. simpl.
    rewrite (IH _ (text +:+ record_line r)) by done.
    unfold set_csv. simpl. by rewrite sapp_assoc.
Qed.

(** Deleting from a file that reads as the records [rs]. *)
Lemma delete_records_rows (vin : string) (rs : list update_record) (w : world) :
  DictReader.read (init_text w) = Return (to_dict <$> rs) ->
  _delete_records_by_vin vin w
  = (Return (length (filter (fun r => r_vin r = vin) rs)),
     stored (filter (fun r => r_vin r <> vin) rs) w).
Proof.
  intros Hread. rewrite delete_records_eq, Hread. cbv zeta.
  rewrite delete_loop. simpl fst; simpl snd.
  erewrite writerows_records by reflexivity. reflexivity.
Qed.

(** When the file cannot be read the deletion fails before it writes. *)
Lemma delete_records_raises (vin : string) (w : world) (e : exn) :
  (_load_records w).1 = Raise e ->
  _delete_records_by_vin vin w = (Raise e, (_load_records w).2).
Proof. rewrite load_records_eq, delete_records_eq. simpl. by intros ->. Qed.

Lemma delete_records_stored_eq (vin : string) (rs : list update_record) (w : world) :
  _delete_records_by_vin vin (stored rs w)
  = if decide (Forall bounded rs)
    then (Return (length (filter (fun r => r_vin r = vin) rs)),
          stored (filter (fun r => r_vin r <> vin) rs) w)
    else (Raise CsvError, stored rs w).
Proof.
  case_decide as Hrs.
  - by rewrite (delete_records_rows vin rs) by by apply read_store_bounded.
  - rewrite (delete_records_raises vin _ CsvError);
      by rewrite load_records_stored_eq, decide_False.
Qed.

Lemma delete_records_stored (vin : string) (rs : list update_record) (w : world) :
  Forall bounded rs ->
  _delete_records_by_vin vin (stored rs w)
  = (Return (length (filter (fun r => r_vin r = vin) rs)),
     stored (filter (fun r => r_vin r <> vin) rs) w).
Proof. intros H. by rewrite delete_records_stored_eq, decide_True. Qed.

Lemma delete_records_missing (vin : string) (w : world) :
  _delete_records_by_vin vin (set_csv w None) = (Return 0%nat, stored [] w).
Proof. by rewrite (delete_records_rows vin []) by apply read_header_line. Qed.

(** C2: in every state of the store, that is whenever [load_all] returns a
    sequence of records (the file with its header and rows, however it is
    quoted, or no file yet), delete_by_vin returns the number of records
    whose vin equals the target, and afterwards the store holds exactly the
    records with another vin, in their insertion order. *)
Theorem delete_by_vin_correct (vin : string) (rs : list update_record) (w : world) :
  (_load_records w).1 = Return (to_dict <$> rs) ->
  let kept := filter (fun r => r_vin r <> vin) rs in
  _delete_records_by_vin vin w
  = (Return (length (filter (fun r => r_vin r = vin) rs)), stored kept w)
  /\ _load_records (stored kept w) = (Return (to_dict <$> kept), stored kept w)
  /\ length (filter (fun r => r_vin r = vin) rs) + length kept = length rs.
Proof.
  intros Hload kept. pose proof (load_records_bounded _ _ Hload) as Hrs.
  rewrite load_records_eq in Hload. simpl in Hload.
  split; [|split].
  - by apply delete_records_rows.
  - apply load_records_stored. by apply bounded_filter.
  - subst kept. clear Hload Hrs. induction rs as [|r rs IH]; [done|].
    destruct (decide (r_vin r = vin)) as [Heq|Hne].
    + rewrite filter_cons_True, filter_cons_False by auto. simpl. lia.
    + rewrite filter_cons_False, filter_cons_True by done. simpl. lia.
Qed.

Lemma delete_by_vin_correct_witness :
  _delete_records_by_vin "A" (stored moved_store fresh) = (Return 2%nat, stored [] fresh)
  /\ _load_records (stored [] fresh) = (Return [], stored [] fresh)
  /\ (2 + 0 = 2)%nat.
Proof.
  apply (delete_by_vin_correct "A" moved_store (stored moved_store fresh)).
  vm_compute. reflexivity.
Defined.

(** ** Appending *)

Lemma append_eq (r : update_record) (w : world) :
  append r w
  = (Return tt, set_csv w (Some (default "" (csv_file w) +:+ record_line r))).
Proof.
  unfold append, mbind, M_bind, writerow. rewrite row_text_to_dict.
  by destruct w as [[text|] x p].
Qed.

Lemma append_stored (r : update_record) (rs : list update_record) (w : world) :
  append r (stored rs w) = (Return tt, stored (rs ++ [r]) w).
Proof.
  rewrite append_eq. unfold stored, store_text. simpl.
  rewrite record_lines_app. simpl. by rewrite sapp_nil_r, sapp_assoc.
Qed.

Lemma append_all_eq (rs : list update_record) (w : world) :
  rs <> [] ->
  append_all rs w
  = (Return tt, set_csv w (Some (default "" (csv_file w) +:+ record_lines rs))).
Proof.
  revert w. induction rs as [|r rs IH]; intros w Hne; [done|].
  simpl append_all. unfold mbind, M_bind. rewrite append_eq.
  destruct rs as [|r' rs].
  - simpl. by rewrite sapp_nil_r.
  - rewrite IH by done. simpl. by rewrite sapp_assoc.
Qed.

Lemma append_all_stored (rs' rs : list update_record) (w : world) :
  append_all rs' (stored rs w) = (Return tt, stored (rs ++ rs') w).
Proof.
  revert rs. induction rs' as [|r rs' IH]; intros rs.
  - simpl. by rewrite (right_id_L [] (++)).
  - simpl append_all. unfold mbind, M_bind. rewrite append_stored, IH.
    by rewrite <- (assoc_L (++)).
Qed.

Lemma init_csv_missing (w : world) :
  _init_csv (set_csv w None) = (Return tt, stored [] w).
Proof.
  rewrite init_csv_eq. unfold stored, store_text, init_text. simpl.
  by rewrite sapp_nil_r.
Qed.

Lemma init_csv_stored (rs : list update_record) (w : world) :
  _init_csv (stored rs w) = (Return tt, stored rs w).
Proof. by rewrite init_csv_eq. Qed.

(** On an initialised store, appending records and loading returns the
    records held before and the appended ones, in order, when all fields
    are within the reader's limit; with a field over it the records are
    written and the load raises [csv.Error]. *)
Lemma append_all_load (rs0 rs : list update_record) (w : world) :
  (append_all rs ;; _load_records) (stored rs0 w)
  = (if decide (Forall bounded (rs0 ++ rs))
     then Return (to_dict <$> rs0 ++ rs) else Raise CsvError,
     stored (rs0 ++ rs) w).
Proof.
  unfold mbind, M_bind. rewrite append_all_stored. apply load_records_stored_eq.
Qed.

(** Once the file is initialised, the store operations keep it well formed,
    also when one of them fails. *)
Lemma run_ops_stored (ops : list store_op) (rs : list update_record) (w : world) :
  exists o rs', run_ops ops (stored rs w) = (o, stored rs' w).
Proof.
  revert rs. induction ops as [|op ops IH]; intros rs; [by exists (Return tt), rs|].
  simpl run_ops. unfold mbind at 1, M_bind at 1.
  destruct op as [|r|vin]; simpl run_op.
  - rewrite init_csv_stored. apply IH.
  - rewrite append_stored. apply IH.
  - unfold mbind, M_bind.
    rewrite delete_records_stored_eq. case_decide; [apply IH|].
    by exists (Raise CsvError), rs.
Qed.

(** So they do from a store with no file yet, when the first of them is not
    an append. *)
Lemma run_ops_initialized (ops : list store_op) (w : world) :
  well_formed (run_ops (EnsureInitialized :: ops) (set_csv w None)).2.
Proof.
  simpl run_ops. unfold mbind at 1, M_bind at 1. simpl run_op.
  rewrite init_csv_missing.
  destruct (run_ops_stored ops [] w) as (o & rs & ->). by exists rs.
Qed.

(** ** Appending to a store that has no file yet *)

Lemma filter_nonblank_cells (rs : list update_record) :
  filter (fun r => DictReader.nonblank r) (cells <$> rs) = cells <$> rs.
Proof.
  induction rs as [|r rs IH]; [done|].
  rewrite fmap_cons, filter_cons_True by done. by rewrite IH.
Qed.

(** C1 fails on the code: [submit] appends without [_init_csv], so on a
    store with no file yet the first appended row stands where the header
    should be; [load_all] then takes it for the header and returns one
    record fewer than were appended, keyed by the cells of the first; when
    a field is over the reader's limit it raises instead.  In no case does
    it return the records that were appended. *)
Theorem append_fresh_load (r : update_record) (rs : list update_record) (w : world) :
  (append_all (r :: rs) ;; _load_records) (set_csv w None)
  = (if decide (Forall bounded (r :: rs))
     then Return (DictReader.row_dict (cells r) <$> (cells <$> rs))
     else Raise CsvError,
     set_csv w (Some (record_lines (r :: rs))))
  /\ length (DictReader.row_dict (cells r) <$> (cells <$> rs)) = length rs.
Proof.
  split; [|by rewrite !length_fmap].
  unfold mbind, M_bind. rewrite append_all_eq by done.
  change (default "" (csv_file (set_csv w None)) +:+ record_lines (r :: rs))
    with (record_lines (r :: rs)).
  erewrite load_records_present by reflexivity.
  unfold DictReader.read. rewrite read_record_lines.
  case_decide; [|done].
  unfold outcome_map, DictReader.rows. rewrite fmap_cons.
  by rewrite filter_nonblank_cells.
Qed.

Example submit_twice_fresh_load :
  ((submit "2024-01-01T08:00:00" "Ann" "A" "S1" "Lot 1" ;;
    submit "2024-01-02T08:00:00" "Bob" "A" "S1" "Lot 2" ;;
    _load_records) fresh).1
  = Return [Dict {[ "2024-01-01T08:00:00" := Some "2024-01-02T08:00:00";
                    "Ann" := Some "Bob"; "S1" := Some "S1"; "A" := Some "A";
                    "Lot 1" := Some "Lot 2"; "" := Some "" ]} None].
Proof. vm_compute. reflexivity. Qed.

Lemma not_well_formed (w : world) (c : ascii) (text : string) :
  csv_file w = Some (String c text) -> c <> "t"%char -> ~ well_formed w.
Proof.
  intros Hw Hc [rs Hrs]. rewrite Hw in Hrs.
  unfold store_text in Hrs. vm_compute in Hrs.
  injection Hrs as Hc' _. by apply Hc.
Qed.

(** C7 fails on the code: an update submitted while the store has no file
    yet creates the file with the data row alone, no header row before
    it. *)
Theorem submit_fresh_no_header :
  csv_file (submit "2024-01-01T08:00:00" "Ann" "A" "S1" "Lot 1" fresh).2
  = Some ("2024-01-01T08:00:00,Ann,S1,A,Lot 1," +:+ csv.lineterminator)
  /\ ~ well_formed (submit "2024-01-01T08:00:00" "Ann" "A" "S1" "Lot 1" fresh).2
  /\ ~ well_formed (run_ops [Append (UpdateRecord "2024-01-01T08:00:00" "Ann" "S1" "A" "Lot 1" "")] fresh).2.
Proof.
  split; [reflexivity|]. split.
  - eapply not_well_formed; [reflexivity|done].
  - eapply not_well_formed; [reflexivity|done].
Qed.

(** ** The update handler *)

Lemma or_else_default (previous : option string) :
  or_else previous id "" = default "" previous.
Proof.
  destruct previous as [s|]; [|done]. simpl.
  destruct (truthy s) eqn:Hs; [done|]. by apply truthy_false in Hs.
Qed.

Lemma update_row_to_dict (t h s v l p : string) :
  update_row t h s v l p = to_dict (UpdateRecord t h s v l p).
Proof. reflexivity. Qed.

Lemma submit_blank (now handled_by vin stock_id current_location : string) (w : world) :
  strip handled_by = "" \/ strip vin = "" \/ strip stock_id = ""
  \/ strip current_location = "" ->
  submit now handled_by vin stock_id current_location w = (Return update_error, w).
Proof.
  intros Hblank. unfold submit.
  assert (truthy (strip handled_by) && truthy (strip vin) && truthy (strip stock_id)
          && truthy (strip current_location) = false) as ->; [|done].
  rewrite !andb_false_iff, !truthy_false. tauto.
Qed.

(** A submission with four non-blank fields is the lookup of the previous
    location followed by the append of one row. *)
Lemma submit_nonblank (now handled_by vin stock_id current_location : string) (w : world) :
  strip handled_by <> "" /\ strip vin <> "" /\ strip stock_id <> ""
  /\ strip current_location <> "" ->
  submit now handled_by vin stock_id current_location w
  = match (_find_previous_location (strip vin) (strip stock_id) w).1 with
    | Return previous =>
        (Return update_success,
         set_csv w (Some (default "" (csv_file w)
           +:+ record_line (UpdateRecord now (strip handled_by) (strip stock_id)
                              (strip vin) (strip current_location)
                              (default "" previous)))))
    | Raise e => (Raise e, w)
    end.
Proof.
  intros (Hh & Hv & Hs & Hl). unfold submit.
  assert (truthy (strip handled_by) && truthy (strip vin) && truthy (strip stock_id)
          && truthy (strip current_location) = true) as ->.
  { rewrite !andb_true_iff, !truthy_true. tauto. }
  change (negb true) with false. unfold mbind, M_bind. cbv beta iota.
  pose proof (find_previous_location_world (strip vin) (strip stock_id) w) as Hw.
  destruct (_find_previous_location (strip vin) (strip stock_id) w) as [[previous|e] w1];
    simpl in Hw; subst w1; [|done].
  simpl fst. rewrite or_else_default, update_row_to_dict.
  pose proof (append_eq (UpdateRecord now (strip handled_by) (strip stock_id)
                (strip vin) (strip current_location) (default "" previous)) w) as Happ.
  unfold append, mbind, M_bind in Happ.
  destruct (CSV_PATH_open_a w) as [[[]|e] w1]; [|done].
  destruct (writerow FIELDNAMES _ w1) as [[[]|e] w2]; [|done].
  by injection Happ as ->.
Qed.

(** C4: a submission with a field that is blank after trimming changes
    nothing in the world and is answered by the error redirect; a
    submission whose four fields are all non-blank after trimming looks up
    the previous location and, when the lookup returns, appends exactly one
    row, stamped with the reading of the server clock and holding the
    trimmed fields and the previous location found, and is answered by the
    success redirect; on a store that holds [rs] the store then holds [rs]
    followed by that record.  The lookup returns on a store of records
    within the reader's limit; when it fails the submission fails with its
    error and writes nothing. *)
Theorem submit_validates
  (now handled_by vin stock_id current_location : string) (w : world) :
  let h := strip handled_by in
  let v := strip vin in
  let s := strip stock_id in
  let l := strip current_location in
  (h = "" \/ v = "" \/ s = "" \/ l = "" ->
   submit now handled_by vin stock_id current_location w = (Return update_error, w))
  /\ (h <> "" /\ v <> "" /\ s <> "" /\ l <> "" ->
      (forall previous,
          (_find_previous_location v s w).1 = Return previous ->
          let r := UpdateRecord now h s v l (default "" previous) in
          submit now handled_by vin stock_id current_location w
          = (Return update_success,
             set_csv w (Some (default "" (csv_file w) +:+ record_line r)))
          /\ forall rs, csv_file w = Some (store_text rs) ->
               submit now handled_by vin stock_id current_location w
               = (Return update_success, stored (rs ++ [r]) w))
      /\ (forall rs,
            csv_file w = Some (store_text rs) -> Forall bounded rs ->
            (_find_previous_location v s w).1
            = Return (last_known_location v s (to_dict <$> rs)))
      /\ (forall e,
            (_find_previous_location v s w).1 = Raise e ->
            submit now handled_by vin stock_id current_location w = (Raise e, w))).
Proof.
  intros h v s l. split; [apply submit_blank|].
  intros Hfields. pose proof (submit_nonblank now _ _ _ _ w Hfields) as Hsubmit.
  fold h v s l in Hsubmit. split; [|split].
  - intros previous Hprev r. rewrite Hprev in Hsubmit. split; [done|].
    intros rs Hrs. rewrite Hsubmit, Hrs. unfold stored, store_text. simpl default.
    by rewrite record_lines_app, sapp_assoc; simpl; rewrite sapp_nil_r.
  - intros rs Hw Hrs. rewrite <- (stored_csv rs w Hw).
    by rewrite find_previous_location_stored.
  - intros e Hprev. by rewrite Hprev in Hsubmit.
Qed.

Lemma submit_validates_witness :
  submit "2024-01-03T08:00:00" "Ann" "  " "S1" "Lot 2" fresh = (Return update_error, fresh)
  /\ submit "2024-01-03T08:00:00" " Ann " "A" "S1" "Lot 2" (stored moved_store fresh)
     = (Return update_success,
        stored (moved_store ++ [UpdateRecord "2024-01-03T08:00:00" "Ann" "S1" "A" "Lot 2"
                                  "Lot 1"])
          (stored moved_store fresh)).
Proof.
  split.
  - destruct (submit_validates "2024-01-03T08:00:00" "Ann" "  " "S1" "Lot 2" fresh)
      as (Hblank & _).
    apply Hblank. right. left. reflexivity.
  - destruct (submit_validates "2024-01-03T08:00:00" " Ann " "A" "S1" "Lot 2"
                (stored moved_store fresh)) as (_ & Hfull).
    destruct Hfull as (Hreturn & _); [repeat split; discriminate|].
    destruct (Hreturn (Some "Lot 1")) as (_ & Hstored); [vm_compute; reflexivity|].
    apply (Hstored moved_store). reflexivity.
Defined.

(** ** Exports *)

Lemma build_excel_eq (w : world) :
  _build_excel w
  = match DictReader.read (init_text w) with
    | Return rows =>
        (Return tt,
         World (Some (init_text w)) (Some (DataFrame rows FIELDNAMES)) (pdf_file w))
    | Raise e => (Raise e, set_csv w (Some (init_text w)))
    end.
Proof.
  unfold _build_excel, mbind, M_bind. rewrite load_records_eq.
  by destruct (DictReader.read _).
Qed.

Lemma build_pdf_csv (w : world) : csv_file (_build_pdf w).2 = Some (init_text w).
Proof.
  unfold _build_pdf, mbind, M_bind. rewrite load_records_eq.
  destruct (DictReader.read _) as [rows|e]; [|done].
  unfold lift. by destruct (pdf_lines rows).
Qed.

Lemma build_excel_csv (w : world) : csv_file (_build_excel w).2 = Some (init_text w).
Proof. rewrite build_excel_eq. by destruct (DictReader.read _). Qed.

Lemma load_records_init (w w' : world) :
  csv_file w' = Some (init_text w) ->
  (_load_records w').1 = (_load_records w).1.
Proof.
  intros H. rewrite !load_records_eq. simpl. unfold init_text at 1. by rewrite H.
Qed.

Lemma bind_world {A B} (m : M A) (f : A -> B) (w : world) :
  ((a ← m; mret (f a)) w).2 = (m w).2.
Proof. unfold mbind, M_bind. by destruct (m w) as [[a|e] w']. Qed.

Lemma bind_ret_world {A B} (m : M A) (b : B) (w : world) :
  ((m ;; mret b) w).2 = (m w).2.
Proof. apply (bind_world m (fun _ => b)). Qed.

(** C6: the spreadsheet export and the document export, run from any state
    of the store, leave what [load_all] returns unchanged, count and
    content, and leave the text of an existing store file as it is. *)
Theorem exports_preserve_store (w : world) :
  (_load_records (_build_excel w).2).1 = (_load_records w).1
  /\ (_load_records (_build_pdf w).2).1 = (_load_records w).1
  /\ (_load_records (download_excel w).2).1 = (_load_records w).1
  /\ (_load_records (download_pdf w).2).1 = (_load_records w).1
  /\ (forall text, csv_file w = Some text ->
        csv_file (_build_excel w).2 = Some text
        /\ csv_file (_build_pdf w).2 = Some text).
Proof.
  repeat split.
  - apply load_records_init, build_excel_csv.
  - apply load_records_init, build_pdf_csv.
  - unfold download_excel. rewrite bind_ret_world.
    apply load_records_init, build_excel_csv.
  - unfold download_pdf. rewrite bind_ret_world.
    apply load_records_init, build_pdf_csv.
  - rewrite build_excel_csv. unfold init_text. by rewrite H.
  - rewrite build_pdf_csv. unfold init_text. by rewrite H.
Qed.

Lemma exports_preserve_store_witness :
  csv_file (_build_excel (stored moved_store fresh)).2 = Some (store_text moved_store)
  /\ csv_file (_build_pdf (stored moved_store fresh)).2 = Some (store_text moved_store).
Proof.
  apply (exports_preserve_store (stored moved_store fresh)). reflexivity.
Defined.

Lemma search_csv (vin : string) (w : world) :
  csv_file (search vin w).2
  = if truthy (strip vin) then Some (init_text w) else csv_file w.
Proof.
  unfold search. destruct (truthy (strip vin)); [|done].
  change (negb true) with false. cbv beta iota.
  unfold mbind, M_bind. rewrite find_latest_eq.
  by destruct (DictReader.read (init_text w)).
Qed.

(** C10: with no store file, [load_all] returns the empty sequence and
    creates the file holding the header row alone; so do the search lookup,
    the two exports and the raw download. *)
Theorem load_all_creates_file (vin : string) (x : option sheet) (p : option document) :
  let w := World None x p in
  _load_records w = (Return [], World (Some header_line) x p)
  /\ header_line
     = "timestamp,handled_by,stock_id,vin,current_location,previous_location"
       +:+ csv.lineterminator
  /\ _find_latest_record_by_vin vin w = (Return None, World (Some header_line) x p)
  /\ (strip vin <> "" -> csv_file (search vin w).2 = Some header_line)
  /\ csv_file (_build_excel w).2 = Some header_line
  /\ csv_file (_build_pdf w).2 = Some header_line
  /\ csv_file (download_excel w).2 = Some header_line
  /\ csv_file (download_pdf w).2 = Some header_line
  /\ download_csv w
     = (Return (FileResponse CSV_PATH "vehicle_status.csv"), World (Some header_line) x p).
Proof.
  intros w.
  assert (_load_records w = (Return [], World (Some header_line) x p)) as Hload.
  { rewrite load_records_eq. change (init_text w) with header_line.
    by rewrite read_header_line. }
  split; [done|]. split; [reflexivity|]. split; [|split].
  - rewrite find_latest_eq. change (init_text w) with header_line.
    by rewrite read_header_line.
  - intros Hvin. rewrite search_csv. apply truthy_true in Hvin. by rewrite Hvin.
  - rewrite build_excel_csv, build_pdf_csv.
    unfold download_excel, download_pdf. rewrite !bind_ret_world.
    rewrite build_excel_csv, build_pdf_csv.
    change (init_text w) with header_line.
    unfold download_csv, mbind, M_bind. rewrite init_csv_eq.
    change (init_text w) with header_line. clear Hload.
    repeat (split; [reflexivity|]). reflexivity.
Qed.

Lemma load_all_creates_file_witness :
  csv_file (search "A" fresh).2 = Some header_line.
Proof.
  destruct (load_all_creates_file "A" None None) as (_ & _ & _ & Hsearch & _).
  apply Hsearch. discriminate.
Defined.

(** ** A store file of any content *)

Lemma writerows_outcome (rows : list dict) (w : world) :
  exists w',
    writerows FIELDNAMES rows w = (Return tt, w')
    \/ writerows FIELDNAMES rows w = (Raise ValueError, w').
Proof.
  revert w. induction rows as [|row rows IH]; intros w; [by eexists; left|].
  simpl writerows. unfold mbind, M_bind, writerow, lift.
  unfold DictWriter.row_text, DictWriter._dict_to_list.
  destruct (DictWriter.no_wrong_fields FIELDNAMES row); simpl.
  - apply IH.
  - eexists. by right.
Qed.

(** C8 as stated fails: the file [corrupt_text] is not one the store wrote,
    and [load_all] succeeds on it, taking its first line for the header. *)
Lemma corrupt_file_loads :
  ~ well_formed corrupt_world
  /\ _load_records corrupt_world
     = (Return [Dict {[ "vin;location" := Some "A;Lot 1" ]} None], corrupt_world).
Proof.
  split.
  - eapply not_well_formed; [reflexivity|done].
  - vm_compute. reflexivity.
Qed.

(** C8, as amended: no operation raises an error of the store's own, and
    none catches an error of the csv library.  When the store file exists,
    whatever its text: where the csv reader accepts the text, [load_all] and
    the two lookups succeed on the rows it makes of it, and [delete_by_vin]
    succeeds or raises the ValueError of [DictWriter]; where the reader
    rejects it they all fail with its [csv.Error] and leave the file as it
    is; append does not read the file and succeeds.  The reader rejects the
    file of a store exactly when a field is over its limit. *)
Theorem store_operations_on_any_text
  (text vin stock_id : string) (r : update_record) (w : world) :
  csv_file w = Some text ->
  (forall rows,
      DictReader.read text = Return rows ->
      _load_records w = (Return rows, w)
      /\ _find_latest_record_by_vin vin w = (Return (latest_by_vin vin rows), w)
      /\ _find_previous_location vin stock_id w
         = (Return (last_known_location vin stock_id rows), w)
      /\ exists w',
           (exists removed, _delete_records_by_vin vin w = (Return removed, w'))
           \/ _delete_records_by_vin vin w = (Raise ValueError, w'))
  /\ (forall e,
      DictReader.read text = Raise e ->
      e = CsvError
      /\ _load_records w = (Raise e, w)
      /\ _find_latest_record_by_vin vin w = (Raise e, w)
      /\ _find_previous_location vin stock_id w = (Raise e, w)
      /\ _delete_records_by_vin vin w = (Raise e, w))
  /\ append r w = (Return tt, set_csv w (Some (text +:+ record_line r)))
  /\ (forall rs, text = store_text rs ->
        DictReader.read text = Raise CsvError <-> ~ Forall bounded rs).
Proof.
  intros Hw.
  assert (init_text w = text) as Htext by (unfold init_text; by rewrite Hw).
  assert (set_csv w (Some text) = w) as Hsame by (rewrite <- Hw; apply set_csv_id).
  assert (_load_records w = (DictReader.read text, w)) as Hload.
  { by rewrite load_records_eq, Htext, Hsame. }
  split; [|split; [|split]].
  - intros rows Hrows. rewrite Hrows in Hload. split; [done|]. split; [|split].
    + rewrite find_latest_eq, Htext, Hrows, Hsame. simpl. by rewrite latest_loop_none.
    + apply find_previous_location_rows. by rewrite Hload.
    + rewrite delete_records_eq, Htext, Hrows. cbv zeta.
      destruct (writerows_outcome (foldl (delete_step vin) (0%nat, []) rows).2
                  (set_csv w (Some header_line))) as [w' [H|H]];
        rewrite H; exists w'; [left; eauto|by right].
  - intros e Hraise. rewrite Hraise in Hload.
    split; [by apply DictReader_read_raises in Hraise|]. split; [done|]. split; [|split].
    + by rewrite find_latest_eq, Htext, Hraise, Hsame.
    + apply find_previous_location_raises. by rewrite Hload.
    + by rewrite delete_records_eq, Htext, Hraise, Hsame.
  - rewrite append_eq. by rewrite Hw.
  - intros rs ->. rewrite read_store_text. by case_decide.
Qed.

Lemma store_operations_on_any_text_witness :
  _load_records corrupt_world
  = (Return [Dict {[ "vin;location" := Some "A;Lot 1" ]} None], corrupt_world)
  /\ _find_latest_record_by_vin "A" corrupt_world
     = (Return (latest_by_vin "A" [Dict {[ "vin;location" := Some "A;Lot 1" ]} None]),
        corrupt_world)
  /\ _find_previous_location "A" "S1" corrupt_world
     = (Return (last_known_location "A" "S1"
                  [Dict {[ "vin;location" := Some "A;Lot 1" ]} None]),
        corrupt_world).
Proof.
  destruct (store_operations_on_any_text corrupt_text "A" "S1"
              (UpdateRecord "" "" "" "" "" "") corrupt_world) as (Hreturn & _);
    [reflexivity|].
  destruct (Hreturn [Dict {[ "vin;location" := Some "A;Lot 1" ]} None])
    as (Hload & Hlatest & Hprevious & _); [vm_compute; reflexivity|].
  repeat split; assumption.
Defined.

(** A line longer than the header makes [delete_by_vin] raise while it
    rewrites the file: the header is written, the rows are lost. *)
Example delete_long_row_raises :
  _delete_records_by_vin "B" (World (Some long_row_text) None None)
  = (Raise ValueError, World (Some header_line) None None).
Proof. vm_compute. reflexivity. Qed.

(** * Further properties of app.py *)

(** ** Updates on a store of records *)

Lemma submit_stored_eq (f : update_post) (rs : list update_record) (w : world) :
  complete f ->
  submit_post f (stored rs w)
  = if decide (Forall bounded rs)
    then (Return update_success, stored (rs ++ [record_of rs f]) w)
    else (Raise CsvError, stored rs w).
Proof.
  intros (Hh & Hv & Hs & Hl). unfold submit_post.
  rewrite submit_nonblank by done. rewrite find_previous_location_stored_eq.
  case_decide; [|done]. simpl fst; cbv iota.
  unfold stored, store_text, record_of. simpl.
  rewrite record_lines_app. simpl. by rewrite sapp_nil_r, sapp_assoc.
Qed.

(** A complete post on a store that holds [rs] leaves the store holding [rs]
    and the record of the post. *)
Lemma submit_stored (f : update_post) (rs : list update_record) (w : world) :
  complete f ->
  Forall bounded rs ->
  submit_post f (stored rs w) = (Return update_success, stored (rs ++ [record_of rs f]) w).
Proof. intros Hf Hrs. by rewrite submit_stored_eq, decide_True. Qed.

Lemma matches_either_to_dict (vin stock_id : string) (r : update_record) :
  matches_either vin stock_id (to_dict r) <-> r_vin r = vin \/ r_stock_id r = stock_id.
Proof.
  unfold matches_either.
  destruct (get_to_dict r) as (_ & _ & Hs & Hv & _). rewrite Hs, Hv.
  split; intros [H|H]; [left|right|left|right]; congruence.
Qed.

Lemma has_location_to_dict (r : update_record) :
  has_location (to_dict r) = truthy (r_current_location r).
Proof.
  unfold has_location.
  destruct (get_to_dict r) as (_ & _ & _ & _ & Hl & _). by rewrite Hl.
Qed.

Lemma last_known_location_elem (vin stock_id : string) (rs : list update_record)
  (l : string) :
  last_known_location vin stock_id (to_dict <$> rs) = Some l ->
  exists r, r ∈ rs /\ r_current_location r = l.
Proof.
  unfold last_known_location. intros Hl.
  destruct (last (filter _ (to_dict <$> rs))) as [row|] eqn:Hrow; [|done].
  apply last_Some_elem_of in Hrow. apply list_elem_of_filter in Hrow as [_ Hin].
  apply list_elem_of_fmap in Hin as (r & -> & Hin). exists r. split; [done|].
  simpl in Hl. destruct (get_to_dict r) as (_ & _ & _ & _ & Hloc & _). congruence.
Qed.

Lemma bounded_cells (r : update_record) :
  bounded r
  <-> fits (r_timestamp r) /\ fits (r_handled_by r) /\ fits (r_stock_id r)
      /\ fits (r_vin r) /\ fits (r_current_location r) /\ fits (r_previous_location r).
Proof.
  unfold bounded, cells. split.
  - intros H. repeat (apply Forall_cons in H as [? H]). tauto.
  - intros (? & ? & ? & ? & ? & ?). by repeat constructor.
Qed.

(** The record of a post is within the limit exactly when the post is. *)
Lemma record_of_bounded (rs : list update_record) (f : update_post) :
  Forall bounded rs -> bounded (record_of rs f) <-> post_fits f.
Proof.
  intros Hrs. rewrite bounded_cells. unfold record_of, post_fits. simpl.
  assert (fits (default "" (last_known_location (strip (f_vin f)) (strip (f_stock_id f))
                              (to_dict <$> rs)))) as Hprev; [|tauto].
  destruct (last_known_location _ _ _) as [l|] eqn:Hl; [|apply fits_nil]. simpl.
  apply last_known_location_elem in Hl as (r & Hin & <-).
  rewrite Forall_forall in Hrs. apply Hrs in Hin. apply bounded_cells in Hin. tauto.
Qed.

Lemma bounded_snoc (rs : list update_record) (r : update_record) :
  Forall bounded rs -> Forall bounded (rs ++ [r]) <-> bounded r.
Proof.
  intros Hrs. rewrite Forall_app. split; [intros [_ H]; by inversion H|].
  intros Hr. split; [done|]. by constructor.
Qed.

Lemma submitted_bounded (fs : list update_post) (rs : list update_record) :
  Forall post_fits fs -> Forall bounded rs -> Forall bounded (submitted rs fs).
Proof.
  intros Hfs. revert rs. induction Hfs as [|f fs Hf _ IH]; intros rs Hrs; [done|].
  simpl. apply IH. apply bounded_snoc; [done|]. by apply record_of_bounded.
Qed.

Lemma submit_all_stored (fs : list update_post) (rs : list update_record) (w : world) :
  Forall complete fs ->
  Forall post_fits fs ->
  Forall bounded rs ->
  submit_all fs (stored rs w) = (Return tt, stored (submitted rs fs) w).
Proof.
  intros Hfs. revert rs. induction Hfs as [|f fs Hf _ IH]; intros rs Hfit Hrs; [done|].
  inversion Hfit as [|? ? Hf' Hfit']; subst.
  simpl submit_all. unfold mbind at 1, M_bind at 1.
  rewrite submit_stored by done. apply IH; [done|].
  apply bounded_snoc; [done|]. by apply record_of_bounded.
Qed.

Lemma submitted_app (fs : list update_post) (rs : list update_record) :
  exists news,
    submitted rs fs = rs ++ news /\ Forall2 written_from fs news.
Proof.
  revert rs. induction fs as [|f fs IH]; intros rs.
  - exists []. split; [by rewrite (right_id_L [] (++))|constructor].
  - destruct (IH (rs ++ [record_of rs f])) as (news & Heq & Hall).
    exists (record_of rs f :: news). split.
    + simpl. by rewrite Heq, <- (assoc_L (++)).
    + constructor; [|done]. by repeat split.
Qed.

Lemma index_eq (w : world) :
  index w = (Return (TemplateResponse "index.html" []), set_csv w (Some (init_text w))).
Proof. unfold index. by rewrite (bind_return _ _ _ _ _ (init_csv_eq w)). Qed.

(** X1: on a store whose file holds the header and the records [rs], and so
    right after [index] has created the file, any sequence of complete
    update posts followed by [_load_records] returns [rs] and then one
    record per post, in the order of the posts, each with the clock reading
    and the trimmed fields of its post, whatever characters the fields
    hold, as long as every field is within the reader's limit of 131072
    characters. *)
Theorem updates_round_trip (fs : list update_post) (rs : list update_record) (w : world) :
  Forall complete fs ->
  Forall post_fits fs ->
  Forall bounded rs ->
  exists news,
    Forall2 written_from fs news
    /\ (submit_all fs ;; _load_records) (stored rs w)
       = (Return (to_dict <$> rs ++ news), stored (rs ++ news) w)
    /\ (rs = [] ->
        (index ;; submit_all fs ;; _load_records) (set_csv w None)
        = (Return (to_dict <$> news), stored news w)).
Proof.
  intros Hfs Hfit Hrs. destruct (submitted_app fs rs) as (news & Heq & Hall).
  exists news. split; [done|].
  assert ((submit_all fs ;; _load_records) (stored rs w)
          = (Return (to_dict <$> rs ++ news), stored (rs ++ news) w)) as Hrun.
  { rewrite (bind_return _ _ _ _ _ (submit_all_stored fs rs w Hfs Hfit Hrs)).
    rewrite <- Heq. apply load_records_stored. by apply submitted_bounded. }
  split; [done|]. intros ->.
  rewrite (bind_return _ _ _ _ _ (index_eq _)). exact Hrun.
Qed.

Lemma fits_length (s : string) :
  (String.length s <= 1000)%nat -> fits s.
Proof. unfold fits, csv.field_limit. lia. Qed.

Lemma updates_round_trip_witness :
  exists news,
    Forall2 written_from sample_posts news
    /\ (submit_all sample_posts ;; _load_records) (stored moved_store fresh)
       = (Return (to_dict <$> moved_store ++ news), stored (moved_store ++ news) fresh)
    /\ (moved_store = [] ->
        (index ;; submit_all sample_posts ;; _load_records) (set_csv fresh None)
        = (Return (to_dict <$> news), stored news fresh)).
Proof.
  apply (updates_round_trip sample_posts moved_store fresh).
  - repeat constructor; discriminate.
  - repeat constructor; apply fits_length; simpl; lia.
  - repeat constructor; apply fits_length; simpl; lia.
Defined.

(** ** Lookups after an update *)

Lemma last_known_location_snoc (vin stock_id : string) (rs : list update_record)
  (r : update_record) :
  last_known_location vin stock_id (to_dict <$> rs ++ [r])
  = if decide ((r_vin r = vin \/ r_stock_id r = stock_id) /\ r_current_location r <> "")
    then Some (r_current_location r)
    else last_known_location vin stock_id (to_dict <$> rs).
Proof.
  unfold last_known_location. rewrite fmap_app, filter_app. simpl fmap.
  case_decide as H.
  - rewrite filter_cons_True, filter_nil.
    + rewrite last_snoc. simpl. by destruct (get_to_dict r) as (_ & _ & _ & _ & Hl & _).
    + destruct H as [Hm Hl]. split; [by apply matches_either_to_dict|].
      rewrite has_location_to_dict. by apply truthy_true.
  - rewrite filter_cons_False, filter_nil; [by rewrite (right_id_L [] (++))|].
    intros [Hm Hl]. apply H. split; [by apply matches_either_to_dict|].
    rewrite has_location_to_dict in Hl. by apply truthy_true.
Qed.

Lemma latest_by_vin_snoc (vin : string) (rs : list update_record) (r : update_record) :
  latest_by_vin vin (to_dict <$> rs ++ [r])
  = if decide (r_vin r = vin) then Some (to_dict r)
    else latest_by_vin vin (to_dict <$> rs).
Proof.
  unfold latest_by_vin. rewrite fmap_app, filter_app. simpl fmap.
  destruct (get_to_dict r) as (_ & _ & _ & Hv & _).
  case_decide as H.
  - rewrite filter_cons_True, filter_nil by congruence. by rewrite last_snoc.
  - rewrite filter_cons_False, filter_nil by congruence.
    by rewrite (right_id_L [] (++)).
Qed.

(** X2: after a complete update on a store of records, all fields within
    the reader's limit, the lookup of the previous location by the same
    vin, or by the same stock id alone, returns the location just submitted,
    and so the next update for either key records it as its previous
    location; a lookup by another vin and another stock id returns what it
    returned before the update. *)
Theorem update_then_previous_location
  (f g : update_post) (rs : list update_record) (w : world) (vin stock_id : string) :
  complete f ->
  post_fits f ->
  Forall bounded rs ->
  let w' := stored (rs ++ [record_of rs f]) w in
  submit_post f (stored rs w) = (Return update_success, w')
  /\ (vin = strip (f_vin f) \/ stock_id = strip (f_stock_id f) ->
      _find_previous_location vin stock_id w'
      = (Return (Some (strip (f_current_location f))), w'))
  /\ (vin <> strip (f_vin f) /\ stock_id <> strip (f_stock_id f) ->
      (_find_previous_location vin stock_id w').1
      = (_find_previous_location vin stock_id (stored rs w)).1)
  /\ (strip (f_vin g) = strip (f_vin f) \/ strip (f_stock_id g) = strip (f_stock_id f) ->
      r_previous_location (record_of (rs ++ [record_of rs f]) g)
      = strip (f_current_location f)).
Proof.
  intros Hf Hfit Hrs w'. pose proof Hf as (_ & _ & _ & Hl).
  assert (Forall bounded (rs ++ [record_of rs f])) as Hrs'.
  { apply bounded_snoc; [done|]. by apply record_of_bounded. }
  split; [by apply submit_stored|].
  subst w'. rewrite !find_previous_location_stored by done. simpl fst.
  unfold record_of at 3. simpl r_previous_location.
  rewrite !last_known_location_snoc. simpl.
  repeat split.
  - intros Hkey. rewrite decide_True; [done|]. split; [|done].
    destruct Hkey as [-> | ->]; auto.
  - intros [Hv Hs]. rewrite decide_False; [done|]. intros [[?|?] _]; congruence.
  - intros Hkey. rewrite decide_True; [done|]. split; [|done].
    destruct Hkey as [-> | ->]; auto.
Qed.

Lemma update_then_previous_location_witness :
  _find_previous_location "A" "S9"
    (stored (moved_store ++ [record_of moved_store
               (UpdatePost "2024-01-03T08:00:00" "Ann" " A " "S1" "Lot 2")]) fresh)
  = (Return (Some "Lot 2"),
     stored (moved_store ++ [record_of moved_store
               (UpdatePost "2024-01-03T08:00:00" "Ann" " A " "S1" "Lot 2")]) fresh).
Proof.
  destruct (update_then_previous_location
              (UpdatePost "2024-01-03T08:00:00" "Ann" " A " "S1" "Lot 2")
              (UpdatePost "2024-01-04T08:00:00" "Bob" "A" "S2" "Lot 3")
              moved_store fresh "A" "S9") as (_ & Hsame & _).
  - repeat split; discriminate.
  - repeat split; apply fits_length; simpl; lia.
  - repeat constructor; apply fits_length; simpl; lia.
  - apply Hsame. left. reflexivity.
Defined.

(** ** The search page *)

Lemma search_nonblank (vin : string) (w : world) :
  strip vin <> "" ->
  search vin w
  = (outcome_map (fun rows => search_page (strip vin) (latest_by_vin (strip vin) rows))
       (_load_records w).1,
     (_load_records w).2).
Proof.
  intros Hvin. unfold search. apply truthy_true in Hvin. rewrite Hvin.
  change (negb true) with false. cbv beta iota.
  unfold mbind, M_bind. rewrite find_latest_eq, load_records_eq. simpl.
  destruct (DictReader.read (init_text w)) as [rows|e]; [|done].
  simpl. by rewrite latest_loop_none.
Qed.

Lemma search_blank_eq (vin : string) (w : world) :
  strip vin = "" -> search vin w = (Return search_blank, w).
Proof.
  intros Hvin. unfold search. apply truthy_false in Hvin. by rewrite Hvin.
Qed.

(** X3: after a complete update on a store of records, all fields within
    the reader's limit, the search for the vin just submitted, with or
    without blanks around it, shows the record the update wrote and no
    error. *)
Theorem update_then_search
  (f : update_post) (rs : list update_record) (w : world) (vin : string) :
  complete f ->
  post_fits f ->
  Forall bounded rs ->
  strip vin = strip (f_vin f) ->
  (submit_post f ;; search vin) (stored rs w)
  = (Return (search_page (strip (f_vin f)) (Some (to_dict (record_of rs f)))),
     stored (rs ++ [record_of rs f]) w).
Proof.
  intros Hf Hfit Hrs Hvin.
  rewrite (bind_return _ _ _ _ _ (submit_stored f rs w Hf Hrs)).
  rewrite search_nonblank by (rewrite Hvin; apply Hf).
  rewrite load_records_stored.
  - simpl. rewrite Hvin, latest_by_vin_snoc. by rewrite decide_True.
  - apply bounded_snoc; [done|]. by apply record_of_bounded.
Qed.

Lemma update_then_search_witness :
  (submit_post (UpdatePost "2024-01-03T08:00:00" "Ann" " A " "S1" "Lot 2") ;; search "A ")
    (stored moved_store fresh)
  = (Return (search_page "A"
       (Some (to_dict (record_of moved_store
                (UpdatePost "2024-01-03T08:00:00" "Ann" " A " "S1" "Lot 2"))))),
     stored (moved_store ++ [record_of moved_store
               (UpdatePost "2024-01-03T08:00:00" "Ann" " A " "S1" "Lot 2")]) fresh).
Proof.
  apply (update_then_search (UpdatePost "2024-01-03T08:00:00" "Ann" " A " "S1" "Lot 2")
           moved_store fresh "A ").
  - repeat split; discriminate.
  - repeat split; apply fits_length; simpl; lia.
  - repeat constructor; apply fits_length; simpl; lia.
  - reflexivity.
Defined.

(** ** Requests that only read *)

Lemma init_csv_csv (w : world) : csv_file (_init_csv w).2 = Some (init_text w).
Proof. by rewrite init_csv_eq. Qed.

Lemma get_csv (req : request) (w : world) :
  is_get req = true ->
  csv_file (handle req w).2 = csv_file w
  \/ csv_file (handle req w).2 = Some (init_text w).
Proof.
  destruct req; try done; intros _; simpl handle.
  - right. unfold index. rewrite bind_ret_world. apply init_csv_csv.
  - rewrite search_csv. destruct (truthy (strip vin)); auto.
  - right. unfold update_form. rewrite bind_ret_world. apply init_csv_csv.
  - right. unfold download_csv. rewrite bind_ret_world. apply init_csv_csv.
  - right. unfold download_excel. rewrite bind_ret_world. apply build_excel_csv.
  - right. unfold download_pdf. rewrite bind_ret_world. apply build_pdf_csv.
  - by left.
Qed.

(** X4: a GET request never changes the text of an existing store file,
    whatever the file holds and whether or not the request succeeds; when
    the file is missing it is left missing or created with the header row
    alone.  What [_load_records] returns is the same before and after. *)
Theorem get_requests_are_safe (req : request) (w : world) :
  is_get req = true ->
  (forall text, csv_file w = Some text -> csv_file (handle req w).2 = Some text)
  /\ (csv_file w = None ->
      csv_file (handle req w).2 = None
      \/ csv_file (handle req w).2 = Some header_line)
  /\ (_load_records (handle req w).2).1 = (_load_records w).1.
Proof.
  intros Hget. destruct (get_csv req w Hget) as [H|H]; rewrite H.
  - split; [done|]. split; [auto|].
    rewrite !load_records_eq. simpl. unfold init_text. by rewrite H.
  - split; [|split].
    + intros text Hw. unfold init_text. by rewrite Hw.
    + intros Hw. right. unfold init_text. by rewrite Hw.
    + by apply load_records_init.
Qed.

Lemma get_requests_are_safe_witness :
  csv_file (handle (GET_search "A") corrupt_world).2 = Some corrupt_text.
Proof.
  destruct (get_requests_are_safe (GET_search "A") corrupt_world) as (H & _).
  - reflexivity.
  - apply H. reflexivity.
Defined.

Lemma latest_by_vin_none (vin : string) (rows : list dict) :
  latest_by_vin vin rows = None
  <-> Forall (fun row => get row "vin" <> Some vin) rows.
Proof.
  unfold latest_by_vin. rewrite last_None. split.
  - intros Hnil. apply Forall_forall. intros row Hin Hvin.
    assert (row ∈ filter (fun row => get row "vin" = Some vin) rows) as H.
    { by apply list_elem_of_filter. }
    rewrite Hnil in H. by apply not_elem_of_nil in H.
  - intros Hall. induction Hall as [|row rows Hrow _ IH]; [done|].
    by rewrite filter_cons_False.
Qed.

(** X5: [search] with a vin that is blank after trimming answers with the
    empty form and touches nothing, not even to create the store file;
    with any other vin it succeeds exactly when [_load_records] does: on
    the rows that returns it shows the last row whose vin is the trimmed
    vin, and the message that no records were found exactly when no row has
    that vin; when [_load_records] fails it fails with the same error. *)
Theorem search_reports (vin : string) (w : world) :
  (strip vin = "" -> search vin w = (Return search_blank, w))
  /\ (strip vin <> "" ->
      (forall rows w',
          _load_records w = (Return rows, w') ->
          search vin w
          = (Return (search_page (strip vin) (latest_by_vin (strip vin) rows)), w')
          /\ (search vin w = (Return (search_page (strip vin) None), w')
              <-> Forall (fun row => get row "vin" <> Some (strip vin)) rows))
      /\ (forall e w',
            _load_records w = (Raise e, w') -> search vin w = (Raise e, w'))).
Proof.
  split; [apply search_blank_eq|]. intros Hvin.
  rewrite search_nonblank by done. split.
  - intros rows w' ->. simpl. split; [done|].
    rewrite <- latest_by_vin_none.
    destruct (latest_by_vin (strip vin) rows); split; intros H; done.
  - by intros e w' ->.
Qed.

Lemma search_reports_witness :
  search "   " fresh = (Return search_blank, fresh)
  /\ search " A " (stored moved_store fresh)
     = (Return (search_page "A" (latest_by_vin "A" (to_dict <$> moved_store))),
        stored moved_store fresh).
Proof.
  split.
  - destruct (search_reports "   " fresh) as (Hblank & _). apply Hblank. reflexivity.
  - destruct (search_reports " A " (stored moved_store fresh)) as (_ & Hfull).
    destruct Hfull as (Hrows & _); [discriminate|].
    destruct (Hrows (to_dict <$> moved_store) (stored moved_store fresh)) as (Hpage & _);
      [vm_compute; reflexivity|].
    exact Hpage.
Defined.

(** ** Deleting *)

Lemma filter_vin_kept (vin : string) (rs : list update_record) :
  filter (fun r => r_vin r = vin) (filter (fun r => r_vin r <> vin) rs) = []
  /\ filter (fun r => r_vin r <> vin) (filter (fun r => r_vin r <> vin) rs)
     = filter (fun r => r_vin r <> vin) rs.
Proof.
  induction rs as [|r rs [IH1 IH2]]; [done|].
  destruct (decide (r_vin r = vin)) as [Heq|Hne].
  - by rewrite !filter_cons_False by auto.
  - rewrite (filter_cons_True (fun r => r_vin r <> vin)) by done.
    rewrite filter_cons_False, filter_cons_True by auto. by rewrite IH1, IH2.
Qed.

Lemma filter_other_vin (vin vin' : string) (rs : list update_record) :
  vin' <> vin ->
  filter (fun r => r_vin r = vin') (filter (fun r => r_vin r <> vin) rs)
  = filter (fun r => r_vin r = vin') rs.
Proof.
  intros Hne. induction rs as [|r rs IH]; [done|].
  destruct (decide (r_vin r = vin)) as [Heq|Hne'].
  - rewrite (filter_cons_False (fun r => r_vin r <> vin)) by auto.
    rewrite (filter_cons_False (fun r => r_vin r = vin')) by congruence. done.
  - rewrite (filter_cons_True (fun r => r_vin r <> vin)) by done.
    destruct (decide (r_vin r = vin')).
    + rewrite !filter_cons_True by done. by rewrite IH.
    + rewrite !filter_cons_False by done. done.
Qed.

Lemma latest_by_vin_records (vin : string) (rs : list update_record) :
  latest_by_vin vin (to_dict <$> rs)
  = to_dict <$> last (filter (fun r => r_vin r = vin) rs).
Proof.
  induction rs as [|r rs IH] using rev_ind; [done|].
  rewrite latest_by_vin_snoc, filter_app, IH. case_decide.
  - rewrite filter_cons_True, filter_nil by done. by rewrite last_snoc.
  - rewrite filter_cons_False, filter_nil by done. by rewrite (right_id_L [] (++)).
Qed.

Lemma filter_vin_none (vin : string) (rs : list update_record) :
  filter (fun r => r_vin r = vin) rs = [] ->
  filter (fun r => r_vin r <> vin) rs = rs.
Proof.
  induction rs as [|r rs IH]; [done|].
  destruct (decide (r_vin r = vin)).
  - by rewrite filter_cons_True.
  - rewrite filter_cons_False, filter_cons_True by done. intros H. by rewrite IH.
Qed.

Lemma delete_vehicle_blank (vin : string) (w : world) :
  strip vin = "" -> delete_vehicle vin w = (Return delete_required, w).
Proof.
  intros Hvin. unfold delete_vehicle. apply truthy_false in Hvin. by rewrite Hvin.
Qed.

Lemma delete_vehicle_nonblank (vin : string) (w : world) :
  strip vin <> "" ->
  delete_vehicle vin w
  = match _delete_records_by_vin (strip vin) w with
    | (Return removed, w') =>
        (Return (if bool_decide (removed = 0%nat) then delete_none
                 else delete_done removed), w')
    | (Raise e, w') => (Raise e, w')
    end.
Proof.
  intros Hvin. unfold delete_vehicle. apply truthy_true in Hvin. rewrite Hvin.
  change (negb true) with false. cbv beta iota. unfold mbind, M_bind.
  destruct (_delete_records_by_vin (strip vin) w) as [[removed|e] w']; [|done].
  by case_bool_decide.
Qed.

(** X6: [delete_vehicle] with a vin that is blank after trimming answers
    that the vin is required and touches nothing.  Otherwise, on a store
    that holds the records [rs], it removes the records whose vin is the
    trimmed vin, keeps the others in order and reports how many it removed;
    when there is none it reports that no records were found, and the store,
    rewritten all the same, holds the records it held. *)
Theorem delete_vehicle_reports (vin : string) (rs : list update_record) (w : world) :
  (strip vin = "" -> delete_vehicle vin w = (Return delete_required, w))
  /\ (strip vin <> "" ->
      (_load_records w).1 = Return (to_dict <$> rs) ->
      let removed := filter (fun r => r_vin r = strip vin) rs in
      let kept := filter (fun r => r_vin r <> strip vin) rs in
      delete_vehicle vin w
      = (Return (if decide (removed = []) then delete_none
                 else delete_done (length removed)),
         stored kept w)
      /\ (removed = [] -> kept = rs)).
Proof.
  split; [apply delete_vehicle_blank|].
  intros Hvin Hload removed kept. split; [|apply filter_vin_none].
  rewrite delete_vehicle_nonblank by done.
  apply load_records_read in Hload.
  rewrite (delete_records_rows (strip vin) rs w Hload).
  fold removed kept. case_decide as Hnil.
  - by rewrite Hnil.
  - rewrite bool_decide_eq_false_2; [done|].
    by destruct removed.
Qed.

Lemma delete_vehicle_reports_witness :
  delete_vehicle " A " (stored moved_store fresh) = (Return (delete_done 2), stored [] fresh).
Proof.
  destruct (delete_vehicle_reports " A " moved_store (stored moved_store fresh))
    as (_ & Hdel).
  apply Hdel; [discriminate|]. vm_compute. reflexivity.
Defined.

(** X7: after [_delete_records_by_vin] on a store of records, the latest
    record of the deleted vin is none, the latest record of any other vin
    is the one it was, and deleting the same vin again removes nothing and
    leaves the store as the first deletion left it. *)
Theorem delete_then_lookup (vin vin' : string) (rs : list update_record) (w : world) :
  (_load_records w).1 = Return (to_dict <$> rs) ->
  let kept := filter (fun r => r_vin r <> vin) rs in
  (_delete_records_by_vin vin ;; _find_latest_record_by_vin vin) w
  = (Return None, stored kept w)
  /\ (vin' <> vin ->
      (_delete_records_by_vin vin ;; _find_latest_record_by_vin vin') w
      = (Return (latest_by_vin vin' (to_dict <$> rs)), stored kept w))
  /\ (_delete_records_by_vin vin ;; _delete_records_by_vin vin) w
     = (Return 0%nat, stored kept w).
Proof.
  intros Hload kept.
  assert (Forall bounded kept) as Hkept.
  { apply bounded_filter. by apply (load_records_bounded w). }
  apply load_records_read in Hload.
  pose proof (delete_records_rows vin rs w Hload) as Hdel. fold kept in Hdel.
  destruct (filter_vin_kept vin rs) as [Hgone Hsame]. fold kept in Hgone, Hsame.
  rewrite !(bind_return _ _ _ _ _ Hdel). split; [|split].
  - rewrite find_latest_stored, latest_by_vin_records by done. by rewrite Hgone.
  - intros Hne. rewrite find_latest_stored, !latest_by_vin_records by done.
    subst kept. by rewrite filter_other_vin.
  - rewrite delete_records_stored by done. by rewrite Hgone, Hsame.
Qed.

Lemma delete_then_lookup_witness :
  (_delete_records_by_vin "A" ;; _find_latest_record_by_vin "A") (stored moved_store fresh)
  = (Return None, stored [] fresh).
Proof.
  destruct (delete_then_lookup "A" "B" moved_store (stored moved_store fresh))
    as (Hgone & _).
  - vm_compute. reflexivity.
  - exact Hgone.
Defined.

Lemma delete_loop_rows (vin : string) (rows : list dict) (n : nat) (acc : list dict) :
  foldl (delete_step vin) (n, acc) rows
  = ((n + length (filter (fun row => get row "vin" = Some vin) rows))%nat,
     acc ++ filter (fun row => get row "vin" <> Some vin) rows).
Proof.
  revert n acc. induction rows as [|row rows IH]; intros n acc.
  - rewrite !filter_nil. simpl. by rewrite Nat.add_0_r, (right_id_L [] (++)).
  - change (foldl (delete_step vin) (n, acc) (row :: rows))
      with (foldl (delete_step vin) (delete_step vin (n, acc) row) rows).
    unfold delete_step at 2, eq_str. case_bool_decide as Heq.
    + rewrite IH, filter_cons_True, filter_cons_False by auto.
      simpl. f_equal. lia.
    + rewrite IH, filter_cons_False, filter_cons_True by done.
      by rewrite <- (assoc_L (++)).
Qed.

Lemma writerow_writable (row : dict) (w : world) (text : string) :
  writable row ->
  csv_file w = Some text ->
  writerow FIELDNAMES row w
  = (Return tt,
     set_csv w (Some (text +:+ csv.writerow
                        ((fun key => get_default row key (Some "")) <$> FIELDNAMES)))).
Proof.
  intros Hrow Hw. unfold writerow, DictWriter.row_text, DictWriter._dict_to_list.
  unfold writable in Hrow. rewrite Hrow. simpl outcome_map.
  unfold mbind, M_bind, lift, CSV_PATH_write. by rewrite Hw.
Qed.

Lemma writerows_writable (rows : list dict) (w : world) (text : string) :
  Forall writable rows ->
  csv_file w = Some text ->
  writerows FIELDNAMES rows w = (Return tt, set_csv w (Some (text +:+ written_rows rows))).
Proof.
  intros Hrows. revert w text. induction Hrows as [|row rows Hrow _ IH]; intros w text Hw.
  - simpl. rewrite sapp_nil_r, <- Hw. by rewrite set_csv_id.
  - simpl writerows. rewrite (bind_return _ _ _ _ _ (writerow_writable row w text Hrow Hw)).
    rewrite (IH _ (text +:+ csv.writerow
                     ((fun key => get_default row key (Some "")) <$> FIELDNAMES)))
      by done.
    simpl. by rewrite sapp_assoc.
Qed.

Lemma writerows_unwritable (good rest : list dict) (bad : dict) (w : world) (text : string) :
  Forall writable good ->
  ~ writable bad ->
  csv_file w = Some text ->
  writerows FIELDNAMES (good ++ bad :: rest) w
  = (Raise ValueError, set_csv w (Some (text +:+ written_rows good))).
Proof.
  intros Hgood Hbad. revert w text.
  induction Hgood as [|row rows Hrow _ IH]; intros w text Hw.
  - simpl. unfold mbind, M_bind, writerow, DictWriter.row_text, DictWriter._dict_to_list.
    unfold writable in Hbad. apply not_true_is_false in Hbad. rewrite Hbad.
    simpl. rewrite sapp_nil_r, <- Hw. by rewrite set_csv_id.
  - simpl writerows. rewrite (bind_return _ _ _ _ _ (writerow_writable row w text Hrow Hw)).
    rewrite (IH _ (text +:+ csv.writerow
                     ((fun key => get_default row key (Some "")) <$> FIELDNAMES)))
      by done.
    simpl. by rewrite sapp_assoc.
Qed.

(** X8: on a store file of any content, [_delete_records_by_vin] succeeds
    when every row it keeps has no key besides the six column names, and
    then returns the number of rows with the vin and leaves the header and
    the kept rows; a kept row with another key, such as a line with more
    cells than the header, makes it raise ValueError after the file has
    been emptied and rewritten up to that row, so that the row and all the
    rows after it are lost. *)
Theorem delete_by_vin_outcome (vin : string) (rows : list dict) (w : world) :
  (_load_records w).1 = Return rows ->
  let kept := filter (fun row => get row "vin" <> Some vin) rows in
  (Forall writable kept ->
   _delete_records_by_vin vin w
   = (Return (length (filter (fun row => get row "vin" = Some vin) rows)),
      set_csv w (Some (header_line +:+ written_rows kept))))
  /\ (forall good bad rest,
        kept = good ++ bad :: rest ->
        Forall writable good ->
        ~ writable bad ->
        _delete_records_by_vin vin w
        = (Raise ValueError, set_csv w (Some (header_line +:+ written_rows good)))).
Proof.
  intros Hload kept. apply load_records_read in Hload.
  rewrite delete_records_eq, Hload. cbv zeta. rewrite delete_loop_rows.
  simpl fst; simpl snd. fold kept. split.
  - intros Hkept. by erewrite writerows_writable by done.
  - intros good bad rest -> Hgood Hbad.
    by erewrite writerows_unwritable by done.
Qed.

Lemma delete_by_vin_outcome_witness :
  _delete_records_by_vin "B" (World (Some long_row_text) None None)
  = (Raise ValueError, World (Some header_line) None None).
Proof.
  destruct (delete_by_vin_outcome "B"
              [Dict (dict_zip FIELDNAMES ["t"; "Ann"; "S1"; "A"; "Lot 1"; ""])
                 (Some ["extra"])]
              (World (Some long_row_text) None None)) as (_ & Hraise).
  - vm_compute. reflexivity.
  - apply (Hraise []
             (Dict (dict_zip FIELDNAMES ["t"; "Ann"; "S1"; "A"; "Lot 1"; ""])
                (Some ["extra"])) []); [reflexivity|constructor|discriminate].
Defined.

(** ** The exports *)

Lemma slice_to_length (n : nat) (s : string) : String.length (slice_to n s) <= n.
Proof.
  revert s. induction n as [|n IH]; intros [|c s]; simpl; try lia.
  specialize (IH s). lia.
Qed.

Lemma slice_to_short (n : nat) (s : string) :
  String.length s <= n -> slice_to n s = s.
Proof.
  revert s. induction n as [|n IH]; intros [|c s]; simpl; intros H; try done; try lia.
  rewrite IH; [done|lia].
Qed.

Lemma pdf_lines_records (rs : list update_record) :
  pdf_lines (to_dict <$> rs) = Return (pdf_line <$> rs).
Proof.
  induction rs as [|r rs IH]; [done|].
  rewrite fmap_cons. simpl pdf_lines. rewrite IH. reflexivity.
Qed.

Lemma build_pdf_eq (w : world) :
  _build_pdf w
  = match DictReader.read (init_text w) with
    | Raise e => (Raise e, set_csv w (Some (init_text w)))
    | Return rows =>
        match pdf_lines rows with
        | Raise e => (Raise e, set_csv w (Some (init_text w)))
        | Return body =>
            (Return tt, World (Some (init_text w)) (xlsx_file w) (Some (pdf_head :: body)))
        end
    end.
Proof.
  unfold _build_pdf, mbind, M_bind. rewrite load_records_eq.
  destruct (DictReader.read _) as [rows|e]; [|done].
  unfold lift. by destruct (pdf_lines rows).
Qed.

Lemma pdf_texts_short (vs : list string) (ws : list Z) :
  length vs <= length ws ->
  Forall (fun v => String.length v <= 50) vs ->
  cell_text <$> ((fun vw : string * Z => Cell vw.2 7 (slice_to 50 vw.1) false)
                   <$> zip vs ws) = vs.
Proof.
  intros Hlen Hvs. revert ws Hlen.
  induction Hvs as [|v vs Hv _ IH]; intros [|wd ws] Hlen; simpl in Hlen; try done; try lia.
  change (zip (v :: vs) (wd :: ws)) with ((v, wd) :: zip vs ws).
  rewrite !fmap_cons. rewrite IH by lia.
  change (cell_text (Cell (v, wd).2 7 (slice_to 50 (v, wd).1) false))
    with (slice_to 50 v).
  by rewrite slice_to_short.
Qed.

(** X9: for a store of records [_build_pdf] writes the title line and then
    one line per record in insertion order, six cells each with the column
    widths 40, 30, 25, 40, 55 and 55; every cell holds the first 50
    characters of its field, so a field of at most 50 characters is shown
    whole and no cell is longer than 50. *)
Theorem build_pdf_records (rs : list update_record) (w : world) :
  (_load_records w).1 = Return (to_dict <$> rs) ->
  _build_pdf w
  = (Return tt,
     World (Some (init_text w)) (xlsx_file w) (Some (pdf_head :: (pdf_line <$> rs))))
  /\ Forall (fun r =>
       cell_width <$> pdf_line r = col_widths
       /\ Forall (fun c => String.length (cell_text c) <= 50) (pdf_line r)
       /\ (Forall (fun v => String.length v <= 50) (cells r) ->
           cell_text <$> pdf_line r = cells r)) rs.
Proof.
  intros Hload. apply load_records_read in Hload. split.
  - by rewrite build_pdf_eq, Hload, pdf_lines_records.
  - apply Forall_forall. intros r _. split; [reflexivity|]. split.
    + unfold pdf_line. rewrite Forall_fmap. apply Forall_forall.
      intros [v wd] _. apply slice_to_length.
    + intros Hshort. by apply pdf_texts_short.
Qed.

Lemma build_pdf_records_witness :
  _build_pdf (stored moved_store fresh)
  = (Return tt,
     World (Some (store_text moved_store)) None
       (Some (pdf_head :: (pdf_line <$> moved_store)))).
Proof.
  destruct (build_pdf_records moved_store (stored moved_store fresh)) as (H & _).
  - vm_compute. reflexivity.
  - exact H.
Defined.

Lemma pdf_cells_none (vs : list (option string)) (ws : list Z) :
  length vs <= length ws ->
  Exists (fun v => v = None) vs ->
  pdf_cells (zip vs ws) = Raise TypeError.
Proof.
  intros Hlen Hvs. revert ws Hlen.
  induction vs as [|v vs IH]; intros [|wd ws] Hlen; simpl in Hlen;
    try (by inversion Hvs); try lia.
  change (zip (v :: vs) (wd :: ws)) with ((v, wd) :: zip vs ws).
  destruct v as [v|]; [|done]. simpl.
  rewrite IH; [done| |lia]. by inversion Hvs.
Qed.

Lemma pdf_cells_some (vs : list (option string)) (ws : list Z) :
  Forall (fun v => v <> None) vs ->
  exists line, pdf_cells (zip vs ws) = Return line.
Proof.
  intros Hvs. revert ws. induction Hvs as [|v vs Hv _ IH]; intros [|wd ws];
    try (by eexists).
  change (zip (v :: vs) (wd :: ws)) with ((v, wd) :: zip vs ws).
  destruct v as [v|]; [|done]. simpl.
  destruct (IH ws) as [line ->]. by eexists.
Qed.

Lemma unbound_values (row : dict) :
  unbound row
  <-> Exists (fun v => v = None)
        ((fun key => get_default row key (Some "")) <$> FIELDNAMES).
Proof.
  unfold unbound. rewrite Exists_fmap.
  assert (forall key, named row !! key = Some None
                      <-> get_default row key (Some "") = None) as Hkey.
  { intros key. unfold get_default.
    destruct (named row !! key) as [[v|]|]; simpl; split; done. }
  split; intros H; (eapply Exists_impl; [exact H|]); intros key; apply Hkey.
Qed.

Lemma pdf_lines_cons (row : dict) (rows : list dict) :
  pdf_lines (row :: rows)
  = outcome_bind
      (pdf_cells (zip ((fun key => get_default row key (Some "")) <$> FIELDNAMES)
                    col_widths))
      (fun line => outcome_map (cons line) (pdf_lines rows)).
Proof. reflexivity. Qed.

Lemma pdf_lines_unbound (rows : list dict) :
  Exists unbound rows -> pdf_lines rows = Raise TypeError.
Proof.
  induction rows as [|row rows IH]; intros Hrows; [by inversion Hrows|].
  rewrite pdf_lines_cons. destruct (decide (unbound row)) as [Hrow|Hrow].
  - rewrite pdf_cells_none; [done|simpl; lia|]. by apply unbound_values.
  - destruct (pdf_cells_some ((fun key => get_default row key (Some "")) <$> FIELDNAMES)
                col_widths) as [line ->].
    + apply Forall_forall. intros v Hv ->. apply Hrow, unbound_values.
      by apply Exists_exists; exists None.
    + simpl. rewrite IH; [done|]. by inversion Hrows.
Qed.

Lemma pdf_lines_bound (rows : list dict) :
  Forall (fun row => ~ unbound row) rows ->
  exists body, pdf_lines rows = Return body /\ length body = length rows.
Proof.
  induction 1 as [|row rows Hrow _ (body & IH & Hlen)]; [by exists []|].
  rewrite pdf_lines_cons.
  destruct (pdf_cells_some ((fun key => get_default row key (Some "")) <$> FIELDNAMES)
              col_widths) as [line ->].
  - apply Forall_forall. intros v Hv ->. apply Hrow, unbound_values.
    by apply Exists_exists; exists None.
  - simpl. rewrite IH. simpl. eexists. split; [done|]. simpl. by rewrite Hlen.
Qed.

Lemma short_row_unbound (row : list string) :
  length row < length FIELDNAMES -> unbound (DictReader.row_dict FIELDNAMES row).
Proof.
  intros Hlen. apply Exists_exists. exists "previous_location".
  split; [set_solver|].
  do 6 (destruct row as [|? row]; [reflexivity|]). simpl in Hlen. lia.
Qed.

(** X10: [_build_pdf] raises TypeError exactly when a loaded row binds one
    of the six columns to [None], which is what a line with fewer cells
    than the six-name header gives; it then writes no document and leaves
    the spreadsheet and the text of the store file alone.  When no row does,
    it writes the title line and one line per row. *)
Theorem build_pdf_unbound (rows : list dict) (w : world) :
  (_load_records w).1 = Return rows ->
  (Exists unbound rows ->
   _build_pdf w = (Raise TypeError, set_csv w (Some (init_text w))))
  /\ (Forall (fun row => ~ unbound row) rows ->
      exists body,
        _build_pdf w
        = (Return tt, World (Some (init_text w)) (xlsx_file w) (Some (pdf_head :: body)))
        /\ length body = length rows)
  /\ (forall row, length row < length FIELDNAMES ->
        unbound (DictReader.row_dict FIELDNAMES row)).
Proof.
  intros Hload. apply load_records_read in Hload.
  rewrite build_pdf_eq, Hload. split; [|split].
  - intros Hrows. by rewrite pdf_lines_unbound.
  - intros Hrows. destruct (pdf_lines_bound rows Hrows) as (body & -> & Hlen).
    by exists body.
  - apply short_row_unbound.
Qed.

Lemma build_pdf_unbound_witness :
  _build_pdf (World (Some short_row_text) None None)
  = (Raise TypeError, World (Some short_row_text) None None).
Proof.
  destruct (build_pdf_unbound [DictReader.row_dict FIELDNAMES ["t"; "Ann"; "S1"; "A"]]
              (World (Some short_row_text) None None)) as (Hraise & _).
  - vm_compute. reflexivity.
  - apply Hraise. constructor. apply short_row_unbound. simpl. lia.
Defined.

(** ** The records the handlers write *)

Lemma rstrip_idemp (s : string) : rstrip (rstrip s) = rstrip s.
Proof.
  induction s as [|c s IH]; [done|]. simpl.
  destruct (rstrip s) as [|d t] eqn:Ht.
  - destruct (isspace c) eqn:Hc; [done|]. simpl. by rewrite Hc.
  - simpl. simpl in IH. by rewrite IH.
Qed.

Lemma lstrip_head (s : string) :
  lstrip s = "" \/ exists c t, lstrip s = String c t /\ isspace c = false.
Proof.
  induction s as [|c s IH]; [by left|]. simpl.
  destruct (isspace c) eqn:Hc; [done|]. right. by exists c, s.
Qed.

Lemma rstrip_head (c : ascii) (s : string) :
  isspace c = false -> exists t, rstrip (String c s) = String c t.
Proof.
  intros Hc. simpl. destruct (rstrip s) as [|d t]; rewrite ?Hc; by eexists.
Qed.

Lemma lstrip_nonspace (c : ascii) (s : string) :
  isspace c = false -> lstrip (String c s) = String c s.
Proof. intros Hc. simpl. by rewrite Hc. Qed.

(** Stripping a stripped string changes nothing. *)
Lemma strip_idemp (s : string) : strip (strip s) = strip s.
Proof.
  unfold strip. destruct (lstrip_head s) as [->|(c & t & -> & Hc)]; [done|].
  destruct (rstrip_head c t Hc) as [u Hu]. rewrite Hu.
  rewrite lstrip_nonspace by done. rewrite <- Hu. apply rstrip_idemp.
Qed.

Lemma record_of_clean (rs : list update_record) (f : update_post) :
  complete f -> Forall clean rs -> clean (record_of rs f).
Proof.
  intros (Hh & Hv & Hs & Hl) Hrs. unfold clean, record_of. simpl.
  rewrite !strip_idemp. repeat split; try done.
  destruct (last_known_location _ _ _) as [l|] eqn:Hprev; [|done]. simpl.
  apply last_known_location_elem in Hprev as (r & Hin & <-).
  rewrite Forall_forall in Hrs. by destruct (Hrs r Hin) as (_ & _ & _ & [_ ?] & _).
Qed.

Lemma clean_has_location (rs : list update_record) :
  Forall clean rs -> Forall (fun row => has_location row = true) (to_dict <$> rs).
Proof.
  intros Hrs. rewrite Forall_fmap. apply (Forall_impl _ _ _ Hrs).
  intros r (_ & _ & _ & [Hl _] & _). simpl.
  rewrite has_location_to_dict. by apply truthy_true.
Qed.

Lemma complete_dec (f : update_post) : complete f \/
  (strip (f_handled_by f) = "" \/ strip (f_vin f) = "" \/ strip (f_stock_id f) = ""
   \/ strip (f_current_location f) = "").
Proof.
  unfold complete.
  destruct (decide (strip (f_handled_by f) = "")); [tauto|].
  destruct (decide (strip (f_vin f) = "")); [tauto|].
  destruct (decide (strip (f_stock_id f) = "")); [tauto|].
  destruct (decide (strip (f_current_location f) = "")); tauto.
Qed.

(** One POST on a file that holds the records [rs]: the file then holds
    [rs], or [rs] and the record of the post, or the records of [rs] with
    another vin. *)
Lemma post_stored (req : request) (rs : list update_record) (w : world) :
  is_get req = false ->
  csv_file w = Some (store_text rs) ->
  csv_file (handle req w).2 = Some (store_text rs)
  \/ (Forall bounded rs
      /\ ((exists f, req = POST_update f /\ complete f
                     /\ csv_file (handle req w).2
                        = Some (store_text (rs ++ [record_of rs f])))
          \/ (exists vin, req = POST_delete vin
                /\ csv_file (handle req w).2
                   = Some (store_text (filter (fun r => r_vin r <> strip vin) rs))))).
Proof.
  intros Hget Hw. rewrite <- (stored_csv rs w Hw).
  destruct req as [| | |f| | | | |vin]; try done; simpl handle.
  - destruct (complete_dec f) as [Hf|Hf].
    + rewrite submit_stored_eq by done. case_decide as Hrs; [|by left].
      right. split; [done|]. left. by exists f.
    + left. unfold submit_post. by rewrite submit_blank.
  - destruct (decide (strip vin = "")) as [Hvin|Hvin].
    + left. by rewrite delete_vehicle_blank.
    + rewrite delete_vehicle_nonblank by done.
      rewrite delete_records_stored_eq. case_decide as Hrs; [|by left].
      right. split; [done|]. right. by exists vin.
Qed.

Lemma get_stored (req : request) (rs : list update_record) (w : world) :
  is_get req = true ->
  csv_file w = Some (store_text rs) ->
  csv_file (handle req w).2 = Some (store_text rs).
Proof.
  intros Hget Hw. destruct (get_csv req w Hget) as [-> | ->]; [done|].
  unfold init_text. by rewrite Hw.
Qed.

(** One request on a file that holds clean records. *)
Lemma handle_clean (req : request) (rs : list update_record) (w : world) :
  csv_file w = Some (store_text rs) ->
  Forall clean rs ->
  exists rs',
    csv_file (handle req w).2 = Some (store_text rs') /\ Forall clean rs'.
Proof.
  intros Hw Hrs. destruct (is_get req) eqn:Hget.
  { exists rs. split; [|done]. by apply get_stored. }
  destruct (post_stored req rs w Hget Hw)
    as [H|[_ [(f & _ & Hf & H)|(vin & _ & H)]]].
  - by exists rs.
  - eexists. split; [exact H|].
    apply Forall_app. split; [done|]. constructor; [|done]. by apply record_of_clean.
  - eexists. split; [exact H|].
    apply Forall_forall. intros r Hr.
    apply list_elem_of_filter in Hr as [_ Hr].
    rewrite Forall_forall in Hrs. by apply Hrs.
Qed.

Lemma serve_clean (reqs : list request) (rs : list update_record) (w : world) :
  csv_file w = Some (store_text rs) ->
  Forall clean rs ->
  exists rs',
    csv_file (serve reqs w) = Some (store_text rs') /\ Forall clean rs'.
Proof.
  revert rs w. induction reqs as [|req reqs IH]; intros rs w Hw Hrs; [by exists rs|].
  destruct (handle_clean req rs w Hw Hrs) as (rs1 & Hw1 & Hrs1).
  apply (IH rs1 (handle req w).2 Hw1 Hrs1).
Qed.

(** X12: served from a store file that holds clean records, and so from the
    file [index] creates, any sequence of requests leaves a file that holds
    the header and clean records: every record has a non-empty, trimmed
    handler, stock id, vin and current location.  On such a store, whenever
    [_find_previous_location] returns, it returns the current location of
    the last record that matches the vin or the stock id; it returns when
    the records are within the reader's limit. *)
Theorem served_store_clean (reqs : list request) (rs : list update_record) (w : world) :
  csv_file w = Some (store_text rs) \/ (csv_file w = None /\ rs = []) ->
  Forall clean rs ->
  let w' := serve (GET_index :: reqs) w in
  exists rs',
    csv_file w' = Some (store_text rs')
    /\ Forall clean rs'
    /\ (forall vin stock_id previous,
          (_find_previous_location vin stock_id w').1 = Return previous ->
          previous = last_matching_location vin stock_id (to_dict <$> rs'))
    /\ (Forall bounded rs' ->
        forall vin stock_id,
          _find_previous_location vin stock_id w'
          = (Return (last_matching_location vin stock_id (to_dict <$> rs')), w')).
Proof.
  intros Hw Hrs w'.
  assert (csv_file (handle GET_index w).2 = Some (store_text rs)) as Hindex.
  { simpl handle. rewrite index_eq. simpl. unfold init_text.
    destruct Hw as [-> |[-> ->]]; [done|]. simpl. unfold store_text. simpl.
    by rewrite sapp_nil_r. }
  destruct (serve_clean reqs rs _ Hindex Hrs) as (rs' & Hw' & Hrs').
  exists rs'. split; [done|]. split; [done|].
  assert (forall vin stock_id,
            last_known_location vin stock_id (to_dict <$> rs')
            = last_matching_location vin stock_id (to_dict <$> rs')) as Hlast.
  { intros vin stock_id. unfold last_known_location, last_matching_location.
    by rewrite filter_located by by apply clean_has_location. }
  split.
  - intros vin stock_id previous.
    rewrite <- (stored_csv rs' w' Hw'), find_previous_location_stored_eq.
    case_decide; [|done]. simpl. intros [= <-]. apply Hlast.
  - intros Hfit vin stock_id.
    rewrite <- (stored_csv rs' w' Hw'), find_previous_location_stored by done.
    by rewrite Hlast.
Qed.

Lemma served_store_clean_witness :
  exists rs',
    csv_file (serve [GET_index; POST_update (UpdatePost "2024-01-03T08:00:00" " Ann" "A" "S1" "Lot 2");
                     GET_download_pdf; POST_delete "B"] fresh)
    = Some (store_text rs')
    /\ Forall clean rs'.
Proof.
  destruct (served_store_clean
              [POST_update (UpdatePost "2024-01-03T08:00:00" " Ann" "A" "S1" "Lot 2");
               GET_download_pdf; POST_delete "B"] [] fresh) as (rs' & Hfile & Hclean & _).
  - right. split; reflexivity.
  - constructor.
  - exists rs'. split; [exact Hfile|exact Hclean].
Defined.

(** ** The first update on a store with no file *)

Lemma read_record_line (r : update_record) :
  bounded r -> DictReader.read (record_line r) = Return [].
Proof.
  intros Hr. unfold DictReader.read.
  pose proof (read_record_lines [r]) as H. simpl record_lines in H.
  rewrite sapp_nil_r in H. rewrite H, decide_True; [done|]. by constructor.
Qed.

(** X13: an update posted while the store has no file is answered by the
    success redirect and writes its row, but with no header before it:
    [_load_records] then returns no record, [search] for the vin just
    submitted finds nothing, the lookup of its previous location returns
    none, and no GET request repairs the file.  The fields of the post are
    within the reader's limit. *)
Theorem first_update_without_file (f : update_post) (req : request) (w : world) :
  complete f ->
  post_fits f ->
  is_get req = true ->
  let w' := set_csv w (Some (record_line (record_of [] f))) in
  submit_post f (set_csv w None) = (Return update_success, w')
  /\ _load_records w' = (Return [], w')
  /\ search (f_vin f) w' = (Return (search_page (strip (f_vin f)) None), w')
  /\ _find_previous_location (strip (f_vin f)) (strip (f_stock_id f)) w' = (Return None, w')
  /\ csv_file (handle req w').2 = csv_file w'.
Proof.
  intros Hf Hfit Hget w'.
  assert (bounded (record_of [] f)) as Hr by (by apply record_of_bounded).
  assert (_load_records w' = (Return [], w')) as Hload.
  { erewrite load_records_present by reflexivity. by rewrite read_record_line. }
  split; [|split; [done|split; [|split]]].
  - unfold submit_post. rewrite submit_nonblank by apply Hf.
    by rewrite find_previous_location_eq.
  - rewrite search_nonblank by apply Hf. by rewrite Hload.
  - apply (find_previous_location_rows _ _ _ []). by rewrite Hload.
  - destruct (get_csv req w' Hget) as [-> | ->]; done.
Qed.

Lemma first_update_without_file_witness :
  search " A" (set_csv fresh
                 (Some (record_line (record_of []
                    (UpdatePost "2024-01-03T08:00:00" "Ann" " A" "S1" "Lot 2")))))
  = (Return (search_page "A" None),
     set_csv fresh
       (Some (record_line (record_of []
          (UpdatePost "2024-01-03T08:00:00" "Ann" " A" "S1" "Lot 2"))))).
Proof.
  destruct (first_update_without_file
              (UpdatePost "2024-01-03T08:00:00" "Ann" " A" "S1" "Lot 2")
              GET_index fresh) as (_ & _ & Hsearch & _).
  - repeat split; discriminate.
  - repeat split; apply fits_length; simpl; lia.
  - reflexivity.
  - exact Hsearch.
Defined.


(** ** An update with a field over the reader's limit *)

Lemma length_pad (n : nat) : String.length (pad n) = n.
Proof. induction n as [|n IH]; [done|]. simpl. by rewrite IH. Qed.

Lemma no_space_pad (n : nat) : no_space (pad n) = true.
Proof. induction n as [|n IH]; [done|]. simpl. exact IH. Qed.

Lemma rstrip_no_space (s : string) : no_space s = true -> rstrip s = s.
Proof.
  induction s as [|c s IH]; [done|]. simpl. intros H.
  apply andb_true_iff in H as [Hc Hs]. apply negb_true_iff in Hc.
  rewrite IH by done. destruct s; [by rewrite Hc|done].
Qed.

Lemma strip_no_space (s : string) : no_space s = true -> strip s = s.
Proof.
  intros H. unfold strip. destruct s as [|c s]; [done|].
  pose proof H as Hc. simpl in Hc. apply andb_true_iff in Hc as [Hc _].
  apply negb_true_iff in Hc. rewrite lstrip_nonspace by done.
  by apply rstrip_no_space.
Qed.

Lemma long_location_over : ~ fits long_location.
Proof.
  unfold fits, long_location. rewrite length_pad, N2Nat.id. lia.
Qed.

Lemma strip_long_location : strip long_location = long_location.
Proof. apply strip_no_space, no_space_pad. Qed.

Lemma long_post_complete : complete long_post.
Proof.
  unfold complete, long_post. simpl f_handled_by; simpl f_vin; simpl f_stock_id;
    simpl f_current_location.
  rewrite strip_long_location.
  split; [discriminate|]. split; [discriminate|]. split; [discriminate|].
  intros H. apply long_location_over. rewrite H. apply fits_nil.
Qed.

Lemma long_post_over : ~ post_fits long_post.
Proof.
  intros (_ & _ & _ & _ & H). simpl in H. rewrite strip_long_location in H.
  by apply long_location_over.
Qed.

(** The file of a store that holds one such record is rejected by the
    reader. *)
Example long_post_unreadable :
  DictReader.read (store_text [record_of [] long_post]) = Raise CsvError.
Proof.
  apply read_store_over. intros H. inversion H as [|? ? Hr _]; subst.
  apply record_of_bounded in Hr; [|constructor]. by apply long_post_over.
Qed.

(** A request on a store file with a field over the limit leaves the file
    as it is. *)
Lemma handle_over (req : request) (rs : list update_record) (w : world) :
  csv_file w = Some (store_text rs) ->
  ~ Forall bounded rs ->
  csv_file (handle req w).2 = Some (store_text rs).
Proof.
  intros Hw Hrs. destruct (is_get req) eqn:Hget; [by apply get_stored|].
  by destruct (post_stored req rs w Hget Hw) as [H|[? _]].
Qed.

Lemma serve_over (reqs : list request) (rs : list update_record) (w : world) :
  csv_file w = Some (store_text rs) ->
  ~ Forall bounded rs ->
  csv_file (serve reqs w) = Some (store_text rs).
Proof.
  revert w. induction reqs as [|req reqs IH]; intros w Hw Hrs; [done|].
  apply IH; [|done]. by apply handle_over.
Qed.

(** X14: an update whose four fields are non-blank is accepted and saved on
    a store of records also when one of its trimmed fields is longer than
    the csv reader's field size limit of 131072 characters.  From then on
    the store file cannot be read: [_load_records], [search],
    [delete_vehicle], the two exports and every further complete update
    fail with [csv.Error], and no sequence of requests changes the file
    again. *)
Theorem oversized_update_blocks_store
  (f g : update_post) (rs : list update_record) (w : world) (vin : string)
  (reqs : list request) :
  complete f ->
  Forall bounded rs ->
  ~ post_fits f ->
  let w' := stored (rs ++ [record_of rs f]) w in
  submit_post f (stored rs w) = (Return update_success, w')
  /\ _load_records w' = (Raise CsvError, w')
  /\ (strip vin <> "" ->
      search vin w' = (Raise CsvError, w')
      /\ delete_vehicle vin w' = (Raise CsvError, w'))
  /\ (complete g -> submit_post g w' = (Raise CsvError, w'))
  /\ download_excel w' = (Raise CsvError, w')
  /\ download_pdf w' = (Raise CsvError, w')
  /\ csv_file (serve reqs w') = csv_file w'.
Proof.
  intros Hf Hrs Hfit w'.
  assert (~ Forall bounded (rs ++ [record_of rs f])) as Hover.
  { rewrite bounded_snoc by done. by rewrite record_of_bounded. }
  assert (_load_records w' = (Raise CsvError, w')) as Hload.
  { subst w'. by rewrite load_records_stored_eq, decide_False. }
  assert (DictReader.read (init_text w') = Raise CsvError) as Hread.
  { by apply read_store_over. }
  assert (set_csv w' (Some (init_text w')) = w') as Hsame by done.
  split; [by apply submit_stored|]. split; [done|].
  split; [|split; [|split; [|split]]].
  - intros Hvin. split.
    + rewrite search_nonblank by done. by rewrite Hload.
    + rewrite delete_vehicle_nonblank by done. subst w'.
      by rewrite delete_records_stored_eq, decide_False.
  - intros Hg. subst w'. by rewrite submit_stored_eq, decide_False.
  - unfold download_excel. apply bind_raise. by rewrite build_excel_eq, Hread.
  - unfold download_pdf. apply bind_raise. by rewrite build_pdf_eq, Hread.
  - by apply serve_over.
Qed.

Lemma oversized_update_blocks_store_witness :
  submit_post long_post (stored moved_store fresh)
  = (Return update_success,
     stored (moved_store ++ [record_of moved_store long_post]) fresh)
  /\ _load_records (stored (moved_store ++ [record_of moved_store long_post]) fresh)
     = (Raise CsvError, stored (moved_store ++ [record_of moved_store long_post]) fresh).
Proof.
  destruct (oversized_update_blocks_store long_post long_post moved_store fresh "A" [])
    as (Hsubmit & Hload & _).
  - apply long_post_complete.
  - repeat constructor; apply fits_length; simpl; lia.
  - apply long_post_over.
  - split; [exact Hsubmit|exact Hload].
Defined.
